(** * Motherload agent: the planning orchestrator

    A shallow embedding of [src/services/agent-planner/run-agent-planner.ts]
    and of the data model of [models/data-flow-models.ts], with the
    properties of the planner stated and proved over it.

    Modelling conventions.
    - Grid coordinates, turn numbers, money, cargo and plan lengths are
      integers ([Z]).  Fuel, hull and the rule constants are JavaScript
      numbers that take fractional values (an air move burns 0.5); they are
      modelled as exact rationals ([Q]).
    - Texts are [string]s, one [ascii] per code unit, for texts in the ASCII
      range: there [\s] is TAB, LF, VT, FF, CR and SPACE, and [toUpperCase]
      maps [a-z] to [A-Z] and fixes every other character.
    - [Map<string,string>] keyed by ["gx,gy"] is a [gmap (Z * Z) ascii]: the
      key rendering is injective on integer pairs.
    - The language-model endpoint is an oracle: the result of each call the
      planner may issue is an argument, and the calls actually issued are
      returned as a trace.
    - Log files, timestamps and the 500 ms pacing delay are write-only
      diagnostics or pure timing and are left out. *)

From Stdlib Require Import ZArith QArith Qround Qminmax Qabs.
From Stdlib Require Import String Ascii List Bool Lia.
From stdpp Require Import gmap strings.

Import ListNotations.
Local Open Scope Z_scope.

(** ** Data model ([models/data-flow-models.ts]) *)

Record Position := { pos_x : Z; pos_y : Z; pos_depth : Z }.
Record FuelState := { fuel_cur : Q; fuel_max : Q }.
Record HullState := { hull_cur : Q; hull_max : Q }.
Record CargoState := { cargo_cur : Z; cargo_cap : Z }.
Record StationPosition := { station_x : Z; station_y : Z }.
Record Goal := { goal_x : Z; goal_y : Z; goal_mined : bool }.
Record Stations :=
  { stations_fuel : option StationPosition;
    stations_shop : option StationPosition }.

(** [rules.digFuelBase] is not part of the declared type; the planner reads
    it through a cast, so it is an optional pair of optional numbers. *)
Record DigFuelBase := { dig_dirt : option Q; dig_lava : option Q }.
Record Rules :=
  { noDigUp : option bool;
    upRequiresAir : option bool;
    lavaDamage : option Q;
    baseTurnFuel : option Q;
    digFuelBase : option DigFuelBase }.

Record State :=
  { turn : Z;
    pos : Position;
    fuel : FuelState;
    hull : HullState;
    cargo : CargoState;
    money : Z;
    localScan : list string;
    atSurface : option bool;
    atFuelStation : option bool;
    atUpgradeShop : option bool;
    drill : option Q;
    goal : option Goal;
    stations : option Stations;
    rules : option Rules }.

(** An action as it exists at run time: [dir] and [kind] are strings, which
    the declared unions [Direction] and [UpgradeKind] only constrain
    statically ([parseActionTokens] casts). *)
Inductive Action :=
| MOVE (dir : string) (reason : string)
| UPGRADE (kind : string) (reason : string)
| SURFACE_OPS (reason : string).

Inductive Direction := U | D | L | R.
Inductive UpgradeKind := FUEL | CARGO | HULL | DRILL.

Definition Direction_str (d : Direction) : string :=
  match d with U => "U" | D => "D" | L => "L" | R => "R" end.

Definition UpgradeKind_str (k : UpgradeKind) : string :=
  match k with FUEL => "FUEL" | CARGO => "CARGO" | HULL => "HULL" | DRILL => "DRILL" end.

(** The field [progress] is [null] wherever it is set and is left out;
    an absent field and a [null] one are both [None]. *)
Record PlanResponse :=
  { actions : list Action;
    note : string;
    model : option string;
    reasoning : option string;
    status : option string }.

(** ** JavaScript helpers *)

(** Truthiness of an optional boolean flag ([undefined] is falsy). *)
Definition truthy (b : option bool) : bool :=
  match b with Some true => true | _ => false end.

(** [a < b] on numbers. *)
Definition Qltb (a b : Q) : bool := negb (Qle_bool b a).

(** ** The fallback planner *)

Fixpoint planActions_loop (state : State) (n : nat) (acc : list Action) : list Action :=
  match n with
  | O => acc
  | S n' =>
      if truthy (atFuelStation state)
         && ((0 <? cargo_cur (cargo state))
             || Qltb (fuel_cur (fuel state)) (fuel_max (fuel state)))
      then planActions_loop state n'
             (acc ++ [SURFACE_OPS "Refuel and cash in at station."])
      else if truthy (atUpgradeShop state) && (150 <=? money state)
      then planActions_loop state n'
             (acc ++ [UPGRADE "FUEL" "Buying fuel upgrade."])
      else planActions_loop state n'
             (acc ++ [MOVE "D" "Server plan: move down."])
  end.

(** [Math.max(1, Math.min(10, planLength || 1))]: [0] is the falsy integer. *)
Definition planCap (planLength : Z) : Z :=
  Z.max 1 (Z.min 10 (if planLength =? 0 then 1 else planLength)).

Definition planActions (state : State) (planLength : Z) : list Action :=
  planActions_loop state (Z.to_nat (planCap planLength)) [].

(** ** Text helpers: [trim], [split(/\s+/)], [toUpperCase], [startsWith] *)

Definition isSpace (c : ascii) : bool :=
  let n := N_of_ascii c in
  (((9 <=? n) && (n <=? 13)) || (n =? 32))%N.

Definition toUpperCase_char (c : ascii) : ascii :=
  let n := N_of_ascii c in
  if ((97 <=? n) && (n <=? 122))%N then ascii_of_N (n - 32) else c.

Fixpoint toUpperCase (s : string) : string :=
  match s with
  | EmptyString => EmptyString
  | String c s' => String (toUpperCase_char c) (toUpperCase s')
  end.

Fixpoint trimStart (s : string) : string :=
  match s with
  | EmptyString => EmptyString
  | String c s' => if isSpace c then trimStart s' else s
  end.

Fixpoint trimEnd (s : string) : string :=
  match s with
  | EmptyString => EmptyString
  | String c s' =>
      match trimEnd s' with
      | EmptyString => if isSpace c then EmptyString else String c EmptyString
      | r => String c r
      end
  end.

Definition trim (s : string) : string := trimEnd (trimStart s).

(** [s.split(/\s+/)]: the pieces between maximal runs of white space; a run
    at either end leaves an empty piece there, and the empty text gives one
    empty piece.  [inSep] tells that the previous character was white
    space. *)
Fixpoint split_ws (inSep : bool) (s : string) : list string :=
  match s with
  | EmptyString => [EmptyString]
  | String c s' =>
      if isSpace c then
        if inSep then split_ws true s' else EmptyString :: split_ws true s'
      else
        match split_ws false s' with
        | p :: ps => String c p :: ps
        | [] => [String c EmptyString]
        end
  end.

Definition isEmpty (s : string) : bool :=
  match s with EmptyString => true | _ => false end.

(** [text.trim().split(/\s+/).filter(Boolean)] *)
Definition tokenize (executionText : string) : list string :=
  List.filter (fun t => negb (isEmpty t)) (split_ws false (trim executionText)).

(** [s.startsWith(p)], returning the rest of [s] after [p]. *)
Fixpoint stripPrefix (p s : string) : option string :=
  match p, s with
  | EmptyString, _ => Some s
  | String a p', String b s' => if Ascii.eqb a b then stripPrefix p' s' else None
  | String _ _, EmptyString => None
  end.

Definition startsWith (s p : string) : bool :=
  match stripPrefix p s with Some _ => true | None => false end.

Definition colon : ascii := ":"%char.

(** The text up to the first colon, and what follows that colon, if any. *)
Fixpoint untilColon (s : string) : string :=
  match s with
  | EmptyString => EmptyString
  | String c s' => if Ascii.eqb c colon then EmptyString else String c (untilColon s')
  end.

Fixpoint afterColon (s : string) : option string :=
  match s with
  | EmptyString => None
  | String c s' => if Ascii.eqb c colon then Some s' else afterColon s'
  end.

(** [t.split(":", 2)[1]]: the second piece, [None] for [undefined]. *)
Definition split_colon_1 (t : string) : option string :=
  match afterColon t with
  | Some rest => Some (untilColon rest)
  | None => None
  end.

Definition str_in (s : string) (l : list string) : bool :=
  existsb (String.eqb s) l.

(** ** The action-token grammar *)

(** [/^MOVE:(U|D|L|R)$/] *)
Definition re_MOVE (t : string) : bool :=
  match stripPrefix "MOVE:" t with
  | Some r => str_in r ["U"; "D"; "L"; "R"]%string
  | None => false
  end.

(** [/^UPGRADE:(FUEL|CARGO|HULL|DRILL)$/] *)
Definition re_UPGRADE (t : string) : bool :=
  match stripPrefix "UPGRADE:" t with
  | Some r => str_in r ["FUEL"; "CARGO"; "HULL"; "DRILL"]%string
  | None => false
  end.

Definition tokenSchema (t : string) : bool :=
  String.eqb t "SURFACE_OPS" || re_MOVE t || re_UPGRADE t.

Record Validation := { success : bool; tokens : list string }.

(** [z.array(tokenSchema).min(1).max(planLength)] on the upper-cased tokens. *)
Definition validateExecution (executionText : string) (planLength : Z) : Validation :=
  let tokens := tokenize executionText in
  let upper := map toUpperCase tokens in
  {| success :=
       (1 <=? Z.of_nat (length upper)) && (Z.of_nat (length upper) <=? planLength)
       && forallb tokenSchema upper;
     tokens := tokens |}.

Fixpoint parseActionTokens_loop (tokens : list string) (acc : list Action) : list Action :=
  match tokens with
  | [] => acc
  | raw :: rest =>
      let t := toUpperCase (trim raw) in
      if String.eqb t "SURFACE_OPS" then
        parseActionTokens_loop rest (acc ++ [SURFACE_OPS "Planned action."])
      else if startsWith t "UPGRADE:" then
        parseActionTokens_loop rest
          (acc ++ [UPGRADE (default EmptyString (split_colon_1 t)) "Planned action."])
      else if startsWith t "MOVE:" then
        parseActionTokens_loop rest
          (acc ++ [MOVE (default EmptyString (split_colon_1 t)) "Planned action."])
      else parseActionTokens_loop rest acc
  end.

Definition parseActionTokens (executionText : string) : list Action :=
  parseActionTokens_loop (tokenize executionText) [].

(** [reason || fallback] *)
Definition reason_or (reason fallback : string) : string :=
  if isEmpty reason then fallback else reason.

Definition dirSet : list string := ["L"; "R"; "U"; "D"]%string.
Definition kindSet : list string := ["FUEL"; "CARGO"; "HULL"; "DRILL"]%string.

Fixpoint sanitizeActions_loop (max : nat) (candidates : list Action) (out : list Action)
  : list Action :=
  match candidates with
  | [] => out
  | a :: rest =>
      if (max <=? length out)%nat then out
      else
        match a with
        | MOVE dir reason =>
            sanitizeActions_loop max rest
              (out ++ [MOVE (if str_in dir dirSet then dir else "D")
                            (reason_or reason "Fallback move.")])
        | UPGRADE kind reason =>
            sanitizeActions_loop max rest
              (out ++ [UPGRADE (if str_in kind kindSet then kind else "FUEL")
                               (reason_or reason "Fallback upgrade.")])
        | SURFACE_OPS reason =>
            sanitizeActions_loop max rest
              (out ++ [SURFACE_OPS (reason_or reason "Fallback surface ops.")])
        end
  end.

(** The minimal state [sanitizeActions] hands to the fallback planner. *)
Definition syntheticState : State :=
  {| turn := 0;
     pos := {| pos_x := 0; pos_y := 0; pos_depth := 0 |};
     fuel := {| fuel_cur := 1; fuel_max := 1 |};
     hull := {| hull_cur := 1; hull_max := 1 |};
     cargo := {| cargo_cur := 0; cargo_cap := 0 |};
     money := 0;
     localScan := [];
     atSurface := None;
     atFuelStation := Some false;
     atUpgradeShop := Some false;
     drill := None; goal := None; stations := None; rules := None |}.

Definition sanitizeActions (candidates : list Action) (planLength : Z) : list Action :=
  let max := planCap planLength in
  match sanitizeActions_loop (Z.to_nat max) candidates [] with
  | [] => planActions syntheticState max
  | out => out
  end.

(** ** Session memory *)

Record Bounds := { minX : Z; maxX : Z; minY : Z; maxY : Z }.
Record Visit := { visit_x : Z; visit_y : Z; visit_turn : Z }.
Record Tile := { tile_x : Z; tile_y : Z; tile_t : ascii }.

Record FuelHint :=
  { stationX : Z;
    returnDx : Z;
    returnDy : Z;
    estReturnFuel : Q;
    buffer : Q;
    fuelCur : Q;
    fuelMax : Q;
    shouldReturn : bool;
    turnsLeftMax : Z;
    turnsLeftAir : Z;
    turnsLeftDig : Z;
    turnsLeftProbable : Z;
    turnsLeftUp : Z;
    turnsLeftWorst : Z }.

Record ShopHint :=
  { shopX : Z; shop_returnDx : Z; shop_returnDy : Z; shop_estReturnFuel : Q }.

(** The notes of [analyzeBehavior], by their data: the window length, the
    two positions of an oscillation, the depth change. *)
Record Behavior :=
  { stuck : option nat;
    oscillating : option ((Z * Z) * (Z * Z) * nat);
    depthNote : option (nat * Z) }.

Record FuelNavigatorPayload :=
  { nav_active : bool;
    nav_fuelPct : Q;
    nav_estReturnFuel : Q;
    nav_errorRate : Q;
    nav_risk : Q;
    nav_pathDirs : list string;
    nav_nextActions : option (list string);
    nav_message : option string }.

Record MemoryView :=
  { knownWindow : list string; visitedTail : list Visit; view_bounds : Bounds }.

(** [userPayload], the object sent to the model as JSON. *)
Record Payload :=
  { payload_planLength : Z;
    payload_turnsElapsed : Z;
    payload_state : State;
    payload_fuelNavigator : option FuelNavigatorPayload;
    payload_memory : MemoryView;
    payload_scanTiles : list Tile;
    payload_knownTiles : list Tile;
    payload_fuelHint : FuelHint;
    payload_shopHint : ShopHint;
    payload_behaviorNote : option Behavior;
    payload_blockedDirs : option (list string);
    payload_fuelRuns : Z;
    payload_upgradeReminder : option string }.

Record StateSummary :=
  { sum_turn : Z;
    sum_pos : Position;
    sum_fuel : FuelState;
    sum_hull : HullState;
    sum_cargo : CargoState;
    sum_money : Z;
    sum_atSurface : option bool;
    sum_atFuelStation : option bool;
    sum_atUpgradeShop : option bool;
    sum_drill : option Q;
    sum_goal : option Goal }.

(** What [summarizeUserPayloadForHistory] keeps of the payload. *)
Record Summary :=
  { summary_planLength : Z;
    summary_turnsElapsed : Z;
    summary_state : StateSummary;
    summary_fuelNavigator : option FuelNavigatorPayload;
    summary_fuelHint : FuelHint;
    summary_shopHint : ShopHint;
    summary_behaviorNote : option Behavior;
    summary_blockedDirs : option (list string);
    summary_fuelRuns : Z;
    summary_upgradeReminder : option string }.

(** The content of a chat message, by what it is the text of. *)
Inductive Content :=
| JsonPayload (p : Payload)
| JsonSummary (s : Summary)
| Text (t : string)
| SystemPrompt
| ExampleUserMessage
| ExampleAssistantOutput
| ValidationError (executionText : option string) (planLength : Z).

Inductive Role := system | user | assistant.

Record HistoryEntry := { role : Role; content : Content }.

Record SessionMemory :=
  { id : string;
    known : gmap (Z * Z) ascii;
    visited : list Visit;
    bounds : Bounds;
    history : option (list HistoryEntry);
    fuelRuns : option Z;
    lastAtStation : option bool }.

(** A session as [getSession] creates it. *)
Definition newSession (id : string) : SessionMemory :=
  {| id := id;
     known := ∅;
     visited := [];
     bounds := {| minX := 0; maxX := 0; minY := 0; maxY := 0 |};
     history := Some [];
     fuelRuns := Some 0;
     lastAtStation := Some false |}.

(** One iteration of the inner loop of [updateMemory]: store the tile, then
    reset the box when the map holds a single key, widen it otherwise. *)
Definition storeTile (kb : gmap (Z * Z) ascii * Bounds) (gx gy : Z) (t : ascii)
  : gmap (Z * Z) ascii * Bounds :=
  let known' := <[(gx, gy) := t]> (fst kb) in
  if (size known' =? 1)%nat
  then (known', {| minX := gx; maxX := gx; minY := gy; maxY := gy |})
  else (known',
        {| minX := Z.min (minX (snd kb)) gx;
           maxX := Z.max (maxX (snd kb)) gx;
           minY := Z.min (minY (snd kb)) gy;
           maxY := Z.max (maxY (snd kb)) gy |}).

Fixpoint updateMemory_row (baseX gy rx : Z) (row : string)
  (kb : gmap (Z * Z) ascii * Bounds) : gmap (Z * Z) ascii * Bounds :=
  match row with
  | EmptyString => kb
  | String t row' =>
      updateMemory_row baseX gy (rx + 1) row' (storeTile kb (baseX + rx) gy t)
  end.

Fixpoint updateMemory_rows (baseX baseY ry : Z) (rows : list string)
  (kb : gmap (Z * Z) ascii * Bounds) : gmap (Z * Z) ascii * Bounds :=
  match rows with
  | [] => kb
  | row :: rows' =>
      updateMemory_rows baseX baseY (ry + 1) rows'
        (updateMemory_row baseX (baseY + ry) 0 row kb)
  end.

(** [visited.push(v); if (visited.length > 50) visited.shift()] *)
Definition pushVisit (visited : list Visit) (v : Visit) : list Visit :=
  let visited' := visited ++ [v] in
  if (50 <? length visited')%nat then tail visited' else visited'.

(** The guards [!state.pos] and [!Array.isArray(state.localScan)] and the
    row test [typeof row !== "string"] never fire on a [State]. *)
Definition updateMemory (session : SessionMemory) (state : State) : SessionMemory :=
  let baseX := pos_x (pos state) - 2 in
  let baseY := pos_y (pos state) - 2 in
  let kb := updateMemory_rows baseX baseY 0 (localScan state)
              (known session, bounds session) in
  {| id := id session;
     known := fst kb;
     visited := pushVisit (visited session)
                  {| visit_x := pos_x (pos state);
                     visit_y := pos_y (pos state);
                     visit_turn := turn state |};
     bounds := snd kb;
     history := history session;
     fuelRuns := fuelRuns session;
     lastAtStation := lastAtStation session |}.

Definition updateFuelRunCount (session : SessionMemory) (state : State) : SessionMemory :=
  if negb (truthy (atFuelStation state)) then
    {| id := id session; known := known session; visited := visited session;
       bounds := bounds session; history := history session;
       fuelRuns := fuelRuns session;
       lastAtStation := Some false |}
  else if negb (truthy (lastAtStation session)) then
    {| id := id session; known := known session; visited := visited session;
       bounds := bounds session; history := history session;
       fuelRuns := Some (default 0 (fuelRuns session) + 1);
       lastAtStation := Some true |}
  else session.

(** [history.push(e); if (history.length > 200) history.shift()] *)
Definition appendHistory (session : SessionMemory) (role : Role) (content : Content)
  : SessionMemory :=
  let h := default [] (history session) ++ [{| role := role; content := content |}] in
  {| id := id session; known := known session; visited := visited session;
     bounds := bounds session;
     history := Some (if (200 <? length h)%nat then tail h else h);
     fuelRuns := fuelRuns session;
     lastAtStation := lastAtStation session |}.

(** ** Payload builders and heuristic advisors *)

Definition buildMemoryWindow (session : SessionMemory) (state : State) (size : nat)
  : list string :=
  let half := Z.of_nat size / 2 in
  let startX := pos_x (pos state) - half in
  let startY := pos_y (pos state) - half in
  map (fun y =>
         string_of_list_ascii
           (map (fun x => default "?"%char (known session !! (startX + x, startY + y)))
                (seqZ 0 (Z.of_nat size))))
      (seqZ 0 (Z.of_nat size)).

Definition dot : ascii := "."%char.

Fixpoint buildScanTiles_row (baseX gy rx : Z) (row : string) (tiles : list Tile)
  : list Tile :=
  match row with
  | EmptyString => tiles
  | String t row' =>
      buildScanTiles_row baseX gy (rx + 1) row'
        (if Ascii.eqb t dot then tiles
         else tiles ++ [{| tile_x := baseX + rx; tile_y := gy; tile_t := t |}])
  end.

Fixpoint buildScanTiles_rows (baseX baseY ry : Z) (rows : list string) (tiles : list Tile)
  : list Tile :=
  match rows with
  | [] => tiles
  | row :: rows' =>
      buildScanTiles_rows baseX baseY (ry + 1) rows'
        (buildScanTiles_row baseX (baseY + ry) 0 row tiles)
  end.

Definition buildScanTiles (state : State) : list Tile :=
  buildScanTiles_rows (pos_x (pos state) - 2) (pos_y (pos state) - 2) 0
    (localScan state) [].

(** [state.rules?.baseTurnFuel ?? 1] *)
Definition ruleBaseTurnFuel (state : State) : Q :=
  match rules state with
  | Some r => default 1%Q (baseTurnFuel r)
  | None => 1%Q
  end.

(** [rules.digFuelBase.dirt] when it is a number, [2] otherwise. *)
Definition ruleDigFuel (state : State) : Q :=
  match rules state with
  | Some {| digFuelBase := Some {| dig_dirt := Some dirt |} |} => dirt
  | _ => 2%Q
  end.

(** [rules.digFuelBase.lava] when it is a number, [3] otherwise. *)
Definition ruleLavaDigFuel (state : State) : Q :=
  match rules state with
  | Some {| digFuelBase := Some {| dig_lava := Some lava |} |} => lava
  | _ => 3%Q
  end.

Definition upThrustFuel : Q := 2%Q.
Definition airMoveFuel : Q := (1 # 2)%Q.

(** [Math.floor(a / b)] *)
Definition floorDiv (a b : Q) : Z := Qfloor (a / b)%Q.

(** The guard [!state.pos || !state.fuel] never fires on a [State], so the
    hint is always an object. *)
Definition buildFuelHint (state : State) : FuelHint :=
  let stationX :=
    match stations state with
    | Some {| stations_fuel := Some f |} => station_x f
    | _ => 6
    end in
  let returnDy := Z.max 0 (pos_y (pos state) - 1) in
  let returnDx := Z.abs (pos_x (pos state) - stationX) in
  let baseTurnFuel := ruleBaseTurnFuel state in
  let digFuel := ruleDigFuel state in
  let lavaDigFuel := ruleLavaDigFuel state in
  let verticalCost := (baseTurnFuel + upThrustFuel)%Q in
  let horizontalCost :=
    (baseTurnFuel + (if 1 <? pos_y (pos state) then digFuel + 1 else airMoveFuel))%Q in
  let estReturnFuel :=
    (inject_Z returnDy * verticalCost + inject_Z returnDx * horizontalCost)%Q in
  let buffer := 8%Q in
  let safeBase := Qmax 1 baseTurnFuel in
  let safeAir := Qmax 1 (baseTurnFuel + airMoveFuel) in
  let safeDig := Qmax 1 (baseTurnFuel + digFuel + 1) in
  let safeUpThrust := Qmax 1 (baseTurnFuel + upThrustFuel) in
  let safeWorst := Qmax 1 (baseTurnFuel + lavaDigFuel + 1) in
  let turnsLeftDig := floorDiv (fuel_cur (fuel state)) safeDig in
  {| stationX := stationX;
     returnDx := returnDx;
     returnDy := returnDy;
     estReturnFuel := estReturnFuel;
     buffer := buffer;
     fuelCur := fuel_cur (fuel state);
     fuelMax := fuel_max (fuel state);
     shouldReturn := Qle_bool (fuel_cur (fuel state)) (estReturnFuel + buffer);
     turnsLeftMax := floorDiv (fuel_cur (fuel state)) safeBase;
     turnsLeftAir := floorDiv (fuel_cur (fuel state)) safeAir;
     turnsLeftDig := turnsLeftDig;
     turnsLeftProbable := turnsLeftDig;
     turnsLeftUp := floorDiv (fuel_cur (fuel state)) safeUpThrust;
     turnsLeftWorst := floorDiv (fuel_cur (fuel state)) safeWorst |}.

Definition buildShopHint (state : State) : ShopHint :=
  let shopX :=
    match stations state with
    | Some {| stations_shop := Some f |} => station_x f
    | _ => 27
    end in
  let returnDy := Z.max 0 (pos_y (pos state) - 1) in
  let returnDx := Z.abs (pos_x (pos state) - shopX) in
  let baseTurnFuel := ruleBaseTurnFuel state in
  let digFuel := ruleDigFuel state in
  let verticalCost := (baseTurnFuel + upThrustFuel)%Q in
  let horizontalCost :=
    (baseTurnFuel + (if 1 <? pos_y (pos state) then digFuel + 1 else airMoveFuel))%Q in
  {| shopX := shopX;
     shop_returnDx := returnDx;
     shop_returnDy := returnDy;
     shop_estReturnFuel :=
       (inject_Z returnDy * verticalCost + inject_Z returnDx * horizontalCost)%Q |}.

(** [(a, b) => a.y - b.y || a.x - b.x] as an order. *)
Definition tile_leb (a b : Tile) : bool :=
  (tile_y a <? tile_y b) || ((tile_y a =? tile_y b) && (tile_x a <=? tile_x b)).

Fixpoint insertTile (a : Tile) (l : list Tile) : list Tile :=
  match l with
  | [] => [a]
  | b :: l' => if tile_leb a b then a :: l else b :: insertTile a l'
  end.

Definition sortTiles (l : list Tile) : list Tile := fold_right insertTile [] l.

(** The known tiles other than ["."] and ["?"].  A JavaScript [Map] iterates
    in insertion order, which the map model does not record: below the limit
    the list stands for its elements, above it the sorted prefix is exact. *)
Definition buildKnownTiles (session : SessionMemory) (limit : nat) : list Tile :=
  let tiles :=
    omap (fun kt : (Z * Z) * ascii =>
            if Ascii.eqb (snd kt) dot || Ascii.eqb (snd kt) "?"%char then None
            else Some {| tile_x := fst (fst kt); tile_y := snd (fst kt); tile_t := snd kt |})
         (map_to_list (known session)) in
  if (limit <? length tiles)%nat then take limit (sortTiles tiles) else tiles.

(** [arr.slice(-n)] *)
Definition lastN {A} (n : nat) (l : list A) : list A := skipn (length l - n) l.

Definition posEqb (p q : Z * Z) : bool := (fst p =? fst q) && (snd p =? snd q).

(** [Array.from(new Set(l))]: first occurrences, in order. *)
Definition uniquePositions (l : list (Z * Z)) : list (Z * Z) :=
  fold_left (fun acc p => if existsb (posEqb p) acc then acc else acc ++ [p]) l [].

Definition analyzeBehavior (session : SessionMemory) (state : State) : option Behavior :=
  let tail := lastN 8 (visited session) in
  if (length tail <? 3)%nat then None
  else
    let unique := uniquePositions (map (fun v => (visit_x v, visit_y v)) tail) in
    let depthDelta :=
      default 0 (visit_y <$> last tail) - default 0 (visit_y <$> head tail) in
    Some {| stuck := match unique with [_] => Some (length tail) | _ => None end;
            oscillating :=
              match unique with [a; b] => Some (a, b, length tail) | _ => None end;
            depthNote :=
              if Z.abs depthDelta <=? 1 then Some (length tail, depthDelta) else None |}.

Definition isBlocked (t : option ascii) : bool :=
  match t with
  | Some c => Ascii.eqb c "r"%char || Ascii.eqb c "S"%char
  | None => false
  end.

Definition blockedDirsFromScan (state : State) : option (list string) :=
  let scan := localScan state in
  if (length scan <? 3)%nat then None
  else
    let center := 2 in
    let at_ (dx dy : Z) : option ascii :=
      match nth_error scan (Z.to_nat (center + dy)) with
      | Some row => String.get (Z.to_nat (center + dx)) row
      | None => None
      end in
    let blocked :=
      (if isBlocked (at_ 0 (-1)) then ["U"%string] else [])
      ++ (if isBlocked (at_ 0 1) then ["D"%string] else [])
      ++ (if isBlocked (at_ (-1) 0) then ["L"%string] else [])
      ++ (if isBlocked (at_ 1 0) then ["R"%string] else []) in
    match blocked with [] => None | _ => Some blocked end.

(** [JSON.parse] of the payload text cannot fail, since that text is the
    [JSON.stringify] of the payload; the summary drops the memory view, the
    tile lists and the scan, rules and stations of the state. *)
Definition summarizeUserPayloadForHistory (p : Payload) : Summary :=
  let state := payload_state p in
  {| summary_planLength := payload_planLength p;
     summary_turnsElapsed := payload_turnsElapsed p;
     summary_state :=
       {| sum_turn := turn state;
          sum_pos := pos state;
          sum_fuel := fuel state;
          sum_hull := hull state;
          sum_cargo := cargo state;
          sum_money := money state;
          sum_atSurface := atSurface state;
          sum_atFuelStation := atFuelStation state;
          sum_atUpgradeShop := atUpgradeShop state;
          sum_drill := drill state;
          sum_goal := goal state |};
     summary_fuelNavigator := payload_fuelNavigator p;
     summary_fuelHint := payload_fuelHint p;
     summary_shopHint := payload_shopHint p;
     summary_behaviorNote := payload_behaviorNote p;
     summary_blockedDirs := payload_blockedDirs p;
     summary_fuelRuns := payload_fuelRuns p;
     summary_upgradeReminder := payload_upgradeReminder p |}.

(** ** Tagged-section extraction *)

(** A prefix test that ignores ASCII case, as the [i] flag does. *)
Fixpoint stripPrefix_i (p s : string) : option string :=
  match p, s with
  | EmptyString, _ => Some s
  | String a p', String b s' =>
      if Ascii.eqb (toUpperCase_char a) (toUpperCase_char b)
      then stripPrefix_i p' s' else None
  | String _ _, EmptyString => None
  end.

(** The first occurrence of [p] in [s]: the text before it and after it. *)
Fixpoint find_i (p s : string) : option (string * string) :=
  match stripPrefix_i p s with
  | Some rest => Some (EmptyString, rest)
  | None =>
      match s with
      | EmptyString => None
      | String c s' =>
          match find_i p s' with
          | Some (before, rest) => Some (String c before, rest)
          | None => None
          end
      end
  end.

(** [text.match(/<tag>([\s\S]*?)<\/tag>/i)]: the leftmost opening tag that
    has a closing tag after it is the first opening tag, and the lazy body
    stops at the first closing tag. *)
Definition extractTaggedText (text tagName : string) : option string :=
  match find_i ("<" +:+ tagName +:+ ">") text with
  | Some (_, rest) =>
      match find_i ("</" +:+ tagName +:+ ">") rest with
      | Some (body, _) => Some (trim body)
      | None => None
      end
  | None => None
  end.

(** The complete section when it is non-empty, else everything after the
    first opening tag, trimmed (the pattern that survives a truncated
    output). *)
Definition extractExecutionText (text : string) : option string :=
  let openTail :=
    match find_i "<execution>" text with
    | Some (_, rest) => Some (trim rest)
    | None => None
    end in
  match extractTaggedText text "execution" with
  | Some full => if isEmpty full then openTail else Some full
  | None => openTail
  end.

(** ** The protocol engine *)

Record Config :=
  { OPENROUTER_API_KEY : string;
    OPENROUTER_MODEL : string;
    MAX_PLANS_PER_SESSION : Z;
    MAX_COMPLETION_TOKENS : Z;
    REASONING_EFFORT_SAFE : string }.

(** The module-level mutable state: the plan counter and the session
    registry. *)
Record World :=
  { planCount : Z;
    sessions : gmap string SessionMemory }.

Record Message :=
  { msg_role : Role;
    msg_content : Content;
    msg_reasoning_details : option string }.

Record Request :=
  { req_model : string;
    req_messages : list Message;
    req_effort : string;
    req_max_tokens : Z;
    req_temperature : Q }.

(** How a call to the model can fail: the timeout fired and aborted it, it
    was aborted from outside, or it failed otherwise (network error, non-2xx
    answer, malformed body).  Each carries the error message. *)
Inductive ApiFailure :=
| AbortedByTimeout (message : string)
| AbortedExternally (message : string)
| RequestFailed (message : string).

Definition failureMessage (e : ApiFailure) : string :=
  match e with
  | AbortedByTimeout m | AbortedExternally m | RequestFailed m => m
  end.

(** What a call to the model gives: the first choice's [content] and
    [reasoning] when they are strings, and its [reasoning_details]. *)
Inductive ApiResult :=
| ApiOk (content reasoning reasoning_details : option string)
| ApiError (e : ApiFailure).

Record Outcome :=
  { response : PlanResponse;
    world : World;
    requests : list Request }.

Definition plainMessage (r : Role) (c : Content) : Message :=
  {| msg_role := r; msg_content := c; msg_reasoning_details := None |}.

(** [a || b] on strings *)
Definition str_or (a b : string) : string := if isEmpty a then b else a.

(** [s || null] *)
Definition str_or_null (s : string) : option string :=
  if isEmpty s then None else Some s.

(** [content || reasoningText || ""] *)
Definition combineText (content : string) (reasoningText : option string) : string :=
  str_or content (str_or (default EmptyString reasoningText) EmptyString).

(** [sessionId || "default"] *)
Definition sessionKey (sessionId : option string) : string :=
  str_or (default EmptyString sessionId) "default".

(** The session of that key, created and registered when absent. *)
Definition getSession (w : World) (sessionId : option string) : SessionMemory * World :=
  let id := sessionKey sessionId in
  match sessions w !! id with
  | Some s => (s, w)
  | None =>
      let s := newSession id in
      (s, {| planCount := planCount w; sessions := <[id := s]> (sessions w) |})
  end.

(** A session is a shared object: a change to it shows in the registry,
    under the key it was fetched by. *)
Definition storeSession (w : World) (key : string) (s : SessionMemory) : World :=
  {| planCount := planCount w; sessions := <[key := s]> (sessions w) |}.

Section Protocol.

Variable cfg : Config.

Definition fallbackResponse (state : State) (planLength : Z) (note : string)
  (reasoning status : option string) : PlanResponse :=
  {| actions := planActions state planLength;
     note := note;
     model := Some (OPENROUTER_MODEL cfg);
     reasoning := reasoning;
     status := status |}.

Definition correctionRequest (userPayload : Payload) (priorOutput : string)
  (correctionMessage : Content) (priorReasoningDetails : option string) : Request :=
  {| req_model := OPENROUTER_MODEL cfg;
     req_messages :=
       [ plainMessage system SystemPrompt;
         plainMessage user ExampleUserMessage;
         plainMessage assistant ExampleAssistantOutput;
         plainMessage user (JsonPayload userPayload);
         {| msg_role := assistant; msg_content := Text priorOutput;
            msg_reasoning_details := priorReasoningDetails |};
         plainMessage user correctionMessage ];
     req_effort := REASONING_EFFORT_SAFE cfg;
     req_max_tokens := MAX_COMPLETION_TOKENS cfg;
     req_temperature := (2 # 10)%Q |}.

(** The one corrective round-trip; [result] is what the model call gives.
    The session is only logged to, and the payload, the prior output, the
    correction message and the prior reasoning details only shape the
    request ([correctionRequest]), so they are not arguments here. *)
Definition requestCorrection (planLength : Z) (result : ApiResult)
  : option PlanResponse :=
  match result with
  | ApiError _ => None
  | ApiOk content reasoningText _ =>
      let content := default EmptyString content in
      let combinedText := combineText content reasoningText in
      match extractExecutionText combinedText with
      | None => None
      | Some executionText =>
          if isEmpty executionText then None
          else if negb (success (validateExecution executionText planLength)) then None
          else
            let actions := parseActionTokens executionText in
            if (Z.of_nat (length actions) <? 1) || (planLength <? Z.of_nat (length actions))
            then None
            else
              Some {| actions := sanitizeActions actions planLength;
                      note := "openrouter-corrected";
                      model := Some (OPENROUTER_MODEL cfg);
                      reasoning := str_or_null content;
                      status := None |}
      end
  end.

Definition buildPayload (session : SessionMemory) (state : State) (planLength : Z)
  (fuelNavigator : option FuelNavigatorPayload) : Payload :=
  let needsUpgradeReminder :=
    (2 <=? default 0 (fuelRuns session)) && Qltb (fuel_max (fuel state)) 180 in
  {| payload_planLength := planLength;
     payload_turnsElapsed := turn state;
     payload_state := state;
     payload_fuelNavigator := fuelNavigator;
     payload_memory :=
       {| knownWindow := buildMemoryWindow session state 12;
          visitedTail := lastN 8 (visited session);
          view_bounds := bounds session |};
     payload_scanTiles := buildScanTiles state;
     payload_knownTiles := buildKnownTiles session 400;
     payload_fuelHint := buildFuelHint state;
     payload_shopHint := buildShopHint state;
     payload_behaviorNote := analyzeBehavior session state;
     payload_blockedDirs := blockedDirsFromScan state;
     payload_fuelRuns := default 0 (fuelRuns session);
     payload_upgradeReminder :=
       if needsUpgradeReminder
       then Some "You have returned to the fuel station multiple times; prioritize buying a FUEL upgrade at the shop to reach deeper depths."%string
       else None |}.

Definition planRequest (session : SessionMemory) (userPayload : Payload) : Request :=
  {| req_model := OPENROUTER_MODEL cfg;
     req_messages :=
       [ plainMessage system SystemPrompt;
         plainMessage user ExampleUserMessage;
         plainMessage assistant ExampleAssistantOutput ]
       ++ map (fun h => plainMessage (role h) (content h))
              (default [] (history session))
       ++ [ plainMessage user (JsonPayload userPayload) ];
     req_effort := REASONING_EFFORT_SAFE cfg;
     req_max_tokens := MAX_COMPLETION_TOKENS cfg;
     req_temperature := (3 # 10)%Q |}.

(** [first] is what the planning call gives if it is issued, [second] what
    the correction call gives if it is issued. *)
Definition callOpenRouterPlan (w : World) (state : State) (planLength : Z)
  (sessionId : option string) (fuelNavigator : option FuelNavigatorPayload)
  (first second : ApiResult) : Outcome :=
  if isEmpty (OPENROUTER_API_KEY cfg) then
    {| response := fallbackResponse state planLength "fallback-no-key" None None;
       world := w; requests := [] |}
  else if (0 <? MAX_PLANS_PER_SESSION cfg) && (MAX_PLANS_PER_SESSION cfg <=? planCount w)
  then
    {| response := fallbackResponse state planLength "fallback-max-plans" None None;
       world := w; requests := [] |}
  else
    let '(session, w) := getSession w sessionId in
    let session := updateMemory session state in
    let session := updateFuelRunCount session state in
    let userPayload := buildPayload session state planLength fuelNavigator in
    let request := planRequest session userPayload in
    match first with
    | ApiError err =>
        let session := appendHistory session user (JsonPayload userPayload) in
        let session :=
          appendHistory session assistant
            (Text ("<error:" +:+ failureMessage err +:+ ">")) in
        {| response :=
             {| actions := [];
                note := "api-error";
                model := Some (OPENROUTER_MODEL cfg);
                reasoning := Some (failureMessage err);
                status := Some "api_error"%string |};
           world := storeSession w (sessionKey sessionId) session;
           requests := [request] |}
    | ApiOk content reasoningText reasoningDetails =>
        let responseContent := default EmptyString content in
        let combinedText := combineText responseContent reasoningText in
        let session :=
          appendHistory session user
            (JsonSummary (summarizeUserPayloadForHistory userPayload)) in
        let session :=
          appendHistory session assistant (Text (str_or combinedText "<empty>")) in
        let w := storeSession w (sessionKey sessionId) session in
        let corrected (executionText : option string) (note : string) : Outcome :=
          let correction := ValidationError executionText planLength in
          {| response :=
               match requestCorrection planLength second with
               | Some correctionResponse => correctionResponse
               | None =>
                   fallbackResponse state planLength note
                     (str_or_null combinedText) (Some "bad_format"%string)
               end;
             world := w;
             requests :=
               [request;
                correctionRequest userPayload combinedText correction reasoningDetails] |} in
        match extractExecutionText combinedText with
        | None => corrected None "no-execution-tag"
        | Some executionText =>
            if isEmpty executionText then corrected None "no-execution-tag"
            else if negb (success (validateExecution executionText planLength))
            then corrected (Some executionText) "bad-execution-format"
            else
              let actions := parseActionTokens executionText in
              if (Z.of_nat (length actions) <? 1)
                 || (planLength <? Z.of_nat (length actions))
              then
                {| response :=
                     fallbackResponse state planLength "bad-execution-parse"
                       (str_or_null combinedText) (Some "bad_format"%string);
                   world := w; requests := [request] |}
              else
                {| response :=
                     {| actions := sanitizeActions actions planLength;
                        note := "openrouter";
                        model := Some (OPENROUTER_MODEL cfg);
                        reasoning := str_or_null responseContent;
                        status := None |};
                   world := {| planCount := planCount w + 1; sessions := sessions w |};
                   requests := [request] |}
        end
    end.

End Protocol.

(** ** Specification-side definitions *)

(** [clamp v lo hi] *)
Definition clamp (v lo hi : Z) : Z := Z.max lo (Z.min hi v).

(** The two guards of the fallback rules, as propositions. *)
Definition needsSurfaceOps (state : State) : Prop :=
  atFuelStation state = Some true
  /\ (0 < cargo_cur (cargo state)
      \/ (fuel_cur (fuel state) < fuel_max (fuel state))%Q).

Definition canBuyFuelUpgrade (state : State) : Prop :=
  atUpgradeShop state = Some true /\ 150 <= money state.

(** The fallback rules in their order; the reason text is free. *)
Inductive fallbackRule (state : State) : Action -> Prop :=
| rule_surface_ops reason :
    needsSurfaceOps state -> fallbackRule state (SURFACE_OPS reason)
| rule_upgrade_fuel reason :
    ~ needsSurfaceOps state -> canBuyFuelUpgrade state ->
    fallbackRule state (UPGRADE "FUEL" reason)
| rule_move_down reason :
    ~ needsSurfaceOps state -> ~ canBuyFuelUpgrade state ->
    fallbackRule state (MOVE "D" reason).

(** The state of the [/test-agent] route. *)
Definition testState : State :=
  {| turn := 0;
     pos := {| pos_x := 10; pos_y := 1; pos_depth := 1 |};
     fuel := {| fuel_cur := 40; fuel_max := 60 |};
     hull := {| hull_cur := 35; hull_max := 40 |};
     cargo := {| cargo_cur := 2; cargo_cap := 12 |};
     money := 120;
     localScan := ["......"; "..dd.."; "..do.."; "..d..."; "......"; "......"]%string;
     atSurface := Some true;
     atFuelStation := Some true;
     atUpgradeShop := Some false;
     drill := Some 1%Q;
     goal := Some {| goal_x := 10; goal_y := 24; goal_mined := false |};
     stations := None;
     rules :=
       Some {| noDigUp := Some false; upRequiresAir := Some false;
               lavaDamage := Some 8%Q; baseTurnFuel := Some 1%Q;
               digFuelBase := None |} |}.


(** The state of the [/test-agent] route with the fuel-station flag set. *)
Definition stateAtStation (flag : bool) : State :=
  {| turn := turn testState; pos := pos testState; fuel := fuel testState;
     hull := hull testState; cargo := cargo testState; money := money testState;
     localScan := localScan testState; atSurface := atSurface testState;
     atFuelStation := Some flag;
     atUpgradeShop := atUpgradeShop testState; drill := drill testState;
     goal := goal testState; stations := stations testState;
     rules := rules testState |}.

(** The number of transitions into [true] in a sequence of flags that
    follows the flag [prev]. *)
Fixpoint risingEdges (prev : bool) (flags : list bool) : nat :=
  match flags with
  | [] => 0
  | f :: flags' => (if f && negb prev then 1 else 0) + risingEdges f flags'
  end.

(** The return estimate in the words of the specification, where the dig
    cost is the rule constant for digging dirt and the air move cost is the
    constant [0.5]. *)
Definition digCost (state : State) : Q := ruleDigFuel state.
Definition airMoveCost : Q := airMoveFuel.

Definition stated_estReturnFuel (state : State) : Q :=
  (inject_Z (returnDy (buildFuelHint state)) * (ruleBaseTurnFuel state + upThrustFuel)
   + inject_Z (returnDx (buildFuelHint state))
     * (if 1 <? pos_y (pos state)
        then ruleBaseTurnFuel state + digCost state
        else ruleBaseTurnFuel state + airMoveCost))%Q.

Definition fuelHint_as_stated (state : State) : Prop :=
  (estReturnFuel (buildFuelHint state) == stated_estReturnFuel state)%Q
  /\ (shouldReturn (buildFuelHint state) = true
      <-> (fuel_cur (fuel state) <= stated_estReturnFuel state + 8)%Q).

(** One row below the surface and one column off the station, with the
    default rule constants. *)
Definition belowSurfaceState : State :=
  {| turn := 7;
     pos := {| pos_x := 7; pos_y := 2; pos_depth := 2 |};
     fuel := {| fuel_cur := 15; fuel_max := 30 |};
     hull := {| hull_cur := 30; hull_max := 30 |};
     cargo := {| cargo_cur := 0; cargo_cap := 12 |};
     money := 0;
     localScan := ["......"; "......"; "......"; "dddddd"; "dddddd"; "dddddd"]%string;
     atSurface := Some false;
     atFuelStation := Some false;
     atUpgradeShop := Some false;
     drill := None; goal := None; stations := None; rules := None |}.

Definition noKeyConfig : Config :=
  {| OPENROUTER_API_KEY := "";
     OPENROUTER_MODEL := "moonshotai/kimi-k2.5";
     MAX_PLANS_PER_SESSION := 0;
     MAX_COMPLETION_TOKENS := 200;
     REASONING_EFFORT_SAFE := "low" |}.

Definition keyConfig : Config :=
  {| OPENROUTER_API_KEY := "sk-or-test";
     OPENROUTER_MODEL := "moonshotai/kimi-k2.5";
     MAX_PLANS_PER_SESSION := 0;
     MAX_COMPLETION_TOKENS := 200;
     REASONING_EFFORT_SAFE := "low" |}.

(** The module state at start-up. *)
Definition initialWorld : World := {| planCount := 0; sessions := ∅ |}.

(** ** Views used by the memory proofs *)

(** A coordinate lies in a box. *)
Definition inBox (b : Bounds) (g : Z * Z) : Prop :=
  minX b <= fst g <= maxX b /\ minY b <= snd g <= maxY b.

(** The bounding-box invariant on the known map and the box. *)
Definition boxInvariant (kb : gmap (Z * Z) ascii * Bounds) : Prop :=
  minX (snd kb) <= maxX (snd kb)
  /\ minY (snd kb) <= maxY (snd kb)
  /\ forall g t, fst kb !! g = Some t -> inBox (snd kb) g.

(** The cells the loops of [updateMemory] visit, in their order. *)
Fixpoint cellsRow (baseX gy rx : Z) (row : string) : list ((Z * Z) * ascii) :=
  match row with
  | EmptyString => []
  | String t row' => ((baseX + rx, gy), t) :: cellsRow baseX gy (rx + 1) row'
  end.

Fixpoint cellsRows (baseX baseY ry : Z) (rows : list string) : list ((Z * Z) * ascii) :=
  match rows with
  | [] => []
  | row :: rows' =>
      cellsRow baseX (baseY + ry) 0 row ++ cellsRows baseX baseY (ry + 1) rows'
  end.

Definition storeCell (kb : gmap (Z * Z) ascii * Bounds) (c : (Z * Z) * ascii)
  : gmap (Z * Z) ascii * Bounds :=
  storeTile kb (fst (fst c)) (snd (fst c)) (snd c).

(** A cell is settled when storing it again changes nothing. *)
Definition settled (kb : gmap (Z * Z) ascii * Bounds) (c : (Z * Z) * ascii) : Prop :=
  fst kb !! fst c = Some (snd c)
  /\ inBox (snd kb) (fst c)
  /\ (size (fst kb) = 1%nat ->
      snd kb = {| minX := fst (fst c); maxX := fst (fst c);
                  minY := snd (fst c); maxY := snd (fst c) |}).

Definition sessionBoxInvariant (session : SessionMemory) : Prop :=
  boxInvariant (known session, bounds session).

(** ** The token grammar, as the specification words it *)

Inductive Token :=
| TSurfaceOps
| TMove (d : Direction)
| TUpgrade (k : UpgradeKind).

(** The canonical spelling of a token. *)
Definition Token_str (tk : Token) : string :=
  match tk with
  | TSurfaceOps => "SURFACE_OPS"
  | TMove d => "MOVE:" +:+ Direction_str d
  | TUpgrade k => "UPGRADE:" +:+ UpgradeKind_str k
  end.

(** The action a token stands for. *)
Definition Token_action (tk : Token) : Action :=
  match tk with
  | TSurfaceOps => SURFACE_OPS "Planned action."
  | TMove d => MOVE (Direction_str d) "Planned action."
  | TUpgrade k => UPGRADE (UpgradeKind_str k) "Planned action."
  end.

Definition isLowerLetter (c : ascii) : bool :=
  ((97 <=? N_of_ascii c) && (N_of_ascii c <=? 122))%N.

Definition isUpperLetter (c : ascii) : bool :=
  ((65 <=? N_of_ascii c) && (N_of_ascii c <=? 90))%N.

(** Two characters are equal up to the case of a letter. *)
Definition sameLetterNoCase (a b : ascii) : bool :=
  Ascii.eqb a b
  || (isUpperLetter a && (N_of_ascii b =? N_of_ascii a + 32)%N)
  || (isUpperLetter b && (N_of_ascii a =? N_of_ascii b + 32)%N).

(** Case-insensitive equality of texts. *)
Fixpoint matchesNoCase (s v : string) : bool :=
  match s, v with
  | EmptyString, EmptyString => true
  | String a s', String b v' => sameLetterNoCase a b && matchesNoCase s' v'
  | _, _ => false
  end.

(** A text spells a token, in any letter case. *)
Definition spells (s : string) (tk : Token) : Prop :=
  matchesNoCase s (Token_str tk) = true.

Fixpoint allChars (p : ascii -> bool) (s : string) : bool :=
  match s with
  | EmptyString => true
  | String c s' => p c && allChars p s'
  end.

(** White space only. *)
Definition blank (s : string) : Prop := allChars isSpace s = true.

(** A non-empty text without white space. *)
Definition word (s : string) : Prop :=
  s <> EmptyString /\ allChars (fun c => negb (isSpace c)) s = true.

(** A text made of white space [lead], then words each followed by its
    white space. *)
Fixpoint render (lead : string) (pieces : list (string * string)) : string :=
  match pieces with
  | [] => lead
  | (t, ws) :: pieces' => lead +:+ t +:+ render ws pieces'
  end.

(** Every word is followed by white space, which is non-empty between two
    words. *)
Fixpoint wellSeparated (pieces : list (string * string)) : Prop :=
  match pieces with
  | [] => True
  | (t, ws) :: pieces' =>
      word t /\ blank ws
      /\ (pieces' <> [] -> ws <> EmptyString)
      /\ wellSeparated pieces'
  end.

(** What [trim] leaves of a rendered text: the words and the white space
    between them. *)
Fixpoint core (pieces : list (string * string)) : string :=
  match pieces with
  | [] => EmptyString
  | (t, ws) :: pieces' =>
      t +:+ match pieces' with
            | [] => EmptyString
            | _ => ws +:+ core pieces'
            end
  end.

(** A model answer whose execution section has an invalid direction, and a
    corrected answer. *)
Definition invalidAnswer : ApiResult :=
  ApiOk (Some "<execution>MOVE:Z</execution>"%string) None None.

Definition correctedAnswer : ApiResult :=
  ApiOk (Some "<execution>MOVE:D</execution>"%string) None None.

(** The session the planner works on, after the memory and fuel-run
    updates, and the payload built from it. *)
Definition workingSession (w : World) (state : State) (sessionId : option string)
  : SessionMemory :=
  updateFuelRunCount (updateMemory (fst (getSession w sessionId)) state) state.

Definition workingPayload (w : World) (state : State) (planLength : Z)
  (sessionId : option string) (fuelNavigator : option FuelNavigatorPayload) : Payload :=
  buildPayload (workingSession w state sessionId) state planLength fuelNavigator.

(** ** Further views of the code *)

(** The action one iteration of the loop of [sanitizeActions] pushes. *)
Definition sanitizeOne (a : Action) : Action :=
  match a with
  | MOVE dir reason =>
      MOVE (if str_in dir dirSet then dir else "D") (reason_or reason "Fallback move.")
  | UPGRADE kind reason =>
      UPGRADE (if str_in kind kindSet then kind else "FUEL")
              (reason_or reason "Fallback upgrade.")
  | SURFACE_OPS reason => SURFACE_OPS (reason_or reason "Fallback surface ops.")
  end.

(** An action of the declared type [Action]: the direction is one of the
    four, the kind one of the four, and the reason is not empty. *)
Definition wellTyped (a : Action) : Prop :=
  match a with
  | MOVE dir reason => List.In dir dirSet /\ reason <> EmptyString
  | UPGRADE kind reason => List.In kind kindSet /\ reason <> EmptyString
  | SURFACE_OPS reason => reason <> EmptyString
  end.

(** One request to the planner together with what the model would answer
    to the calls it may issue. *)
Record Call :=
  { call_state : State;
    call_planLength : Z;
    call_sessionId : option string;
    call_fuelNavigator : option FuelNavigatorPayload;
    call_first : ApiResult;
    call_second : ApiResult }.

Definition runCall (cfg : Config) (w : World) (c : Call) : Outcome :=
  callOpenRouterPlan cfg w (call_state c) (call_planLength c) (call_sessionId c)
    (call_fuelNavigator c) (call_first c) (call_second c).

(** The module state after a sequence of requests served one after the
    other. *)
Definition runCalls (cfg : Config) (w : World) (calls : list Call) : World :=
  fold_left (fun w c => world (runCall cfg w c)) calls w.

(** What holds of every session of a reachable module state. *)
Definition sessionInvariant (key : string) (s : SessionMemory) : Prop :=
  id s = key
  /\ (length (default [] (history s)) <= 200)%nat
  /\ (length (visited s) <= 50)%nat
  /\ sessionBoxInvariant s.

Definition worldInvariant (w : World) : Prop :=
  forall key s, sessions w !! key = Some s -> sessionInvariant key s.

(** The number of model calls behind each kind of answer. *)
Definition modelCalls (note : string) : nat :=
  if String.eqb note "fallback-no-key" || String.eqb note "fallback-max-plans" then 0
  else if String.eqb note "api-error" || String.eqb note "openrouter" then 1
  else 2.

Definition budgetConfig : Config :=
  {| OPENROUTER_API_KEY := "sk-or-test";
     OPENROUTER_MODEL := "moonshotai/kimi-k2.5";
     MAX_PLANS_PER_SESSION := 1;
     MAX_COMPLETION_TOKENS := 200;
     REASONING_EFFORT_SAFE := "low" |}.

Definition spentWorld : World := {| planCount := 1; sessions := ∅ |}.

(** The cells of the local scan with their absolute coordinates, in the
    order [updateMemory] stores them. *)
Definition scanCells (state : State) : list ((Z * Z) * ascii) :=
  cellsRows (pos_x (pos state) - 2) (pos_y (pos state) - 2) 0 (localScan state).

(** The local scan shows tile [t] at absolute coordinate [g]: it is the
    character [rx] of row [ry], and [g] is the player's position shifted by
    [(rx - 2, ry - 2)]. *)
Definition scanShows (state : State) (g : Z * Z) (t : ascii) : Prop :=
  exists (ry rx : nat) (row : string),
    nth_error (localScan state) ry = Some row
    /\ String.get rx row = Some t
    /\ g = (pos_x (pos state) - 2 + Z.of_nat rx, pos_y (pos state) - 2 + Z.of_nat ry).

(** The box is tight: each of its four sides passes through a known
    coordinate, unless nothing is known. *)
Definition boxTight (kb : gmap (Z * Z) ascii * Bounds) : Prop :=
  fst kb = ∅
  \/ ((exists g, is_Some (fst kb !! g) /\ fst g = minX (snd kb))
      /\ (exists g, is_Some (fst kb !! g) /\ fst g = maxX (snd kb))
      /\ (exists g, is_Some (fst kb !! g) /\ snd g = minY (snd kb))
      /\ (exists g, is_Some (fst kb !! g) /\ snd g = maxY (snd kb))).

(** A scan cell as a payload tile. *)
Definition cellTile (c : (Z * Z) * ascii) : Tile :=
  {| tile_x := fst (fst c); tile_y := snd (fst c); tile_t := snd c |}.

Definition notDot (c : (Z * Z) * ascii) : bool := negb (Ascii.eqb (snd c) dot).

(** The positions [analyzeBehavior] looks at: the last 8 visited. *)
Definition behaviorWindow (session : SessionMemory) : list (Z * Z) :=
  map (fun v => (visit_x v, visit_y v)) (lastN 8 (visited session)).

(** A session that stood three turns at the same place. *)
Definition idleSession : SessionMemory :=
  fold_left updateMemory [testState; testState; testState] (newSession "default").

(** The character at column [col] of row [row] of the local scan. *)
Definition tileAt (state : State) (col row : nat) : option ascii :=
  match nth_error (localScan state) row with
  | Some r => String.get col r
  | None => None
  end.

(** Rock or surface: what cannot be moved into. *)
Definition solid (t : option ascii) : Prop :=
  t = Some "r"%char \/ t = Some "S"%char.

(** A text without the character that opens a tag. *)
Definition noTagOpen (s : string) : Prop :=
  allChars (fun c => negb (Ascii.eqb c "<"%char)) s = true.

(** A text is a spelling of [tag] in some letter case. *)
Definition spellsTag (s tag : string) : Prop := toUpperCase s = toUpperCase tag.

(** The first answer sends the planner into the correction round: its
    combined text has no execution text, or one that fails validation. *)
Definition needsCorrection (planLength : Z) (combinedText : string) : bool :=
  match extractExecutionText combinedText with
  | None => true
  | Some executionText =>
      isEmpty executionText || negb (success (validateExecution executionText planLength))
  end.

(** The note of the fallback answer when the correction round fails too. *)
Definition rejectionNote (planLength : Z) (combinedText : string) : string :=
  match extractExecutionText combinedText with
  | None => "no-execution-tag"
  | Some executionText =>
      if isEmpty executionText then "no-execution-tag" else "bad-execution-format"
  end.

(** The trail entry a memory update pushes for a state. *)
Definition visitOf (state : State) : Visit :=
  {| visit_x := pos_x (pos state);
     visit_y := pos_y (pos state);
     visit_turn := turn state |}.

(** A tile the session knows and that is neither empty ["."] nor the
    unknown placeholder ["?"]. *)
Definition marked (session : SessionMemory) (tl : Tile) : Prop :=
  known session !! (tile_x tl, tile_y tl) = Some (tile_t tl)
  /\ tile_t tl <> dot /\ tile_t tl <> "?"%char.

(** Every tile is before all the tiles after it, in (y, x) order. *)
Fixpoint tilesSorted (l : list Tile) : Prop :=
  match l with
  | [] => True
  | a :: l' => Forall (fun b => tile_leb a b = true) l' /\ tilesSorted l'
  end.
(** * Properties *)

(** ** The fallback planner *)

Lemma truthy_true b : truthy b = true <-> b = Some true.
Proof. destruct b as [[|]|]; simpl; split; congruence. Qed.

Lemma Qltb_true a b : Qltb a b = true <-> (a < b)%Q.
Proof.
  unfold Qltb. rewrite negb_true_iff, <- not_true_iff_false, Qle_bool_iff.
  split; [apply Qnot_le_lt | apply Qlt_not_le].
Qed.

Lemma needsSurfaceOps_test state :
  truthy (atFuelStation state)
  && ((0 <? cargo_cur (cargo state))
      || Qltb (fuel_cur (fuel state)) (fuel_max (fuel state))) = true
  <-> needsSurfaceOps state.
Proof.
  unfold needsSurfaceOps.
  rewrite andb_true_iff, orb_true_iff, truthy_true, Z.ltb_lt, Qltb_true. tauto.
Qed.

Lemma canBuyFuelUpgrade_test state :
  truthy (atUpgradeShop state) && (150 <=? money state) = true
  <-> canBuyFuelUpgrade state.
Proof.
  unfold canBuyFuelUpgrade. rewrite andb_true_iff, truthy_true, Z.leb_le. tauto.
Qed.

Lemma planActions_loop_spec state n : forall acc,
  exists slots,
    planActions_loop state n acc = acc ++ slots
    /\ length slots = n
    /\ Forall (fallbackRule state) slots.
Proof.
  induction n as [|n IH]; intros acc; simpl.
  - exists []. rewrite app_nil_r. auto.
  - destruct (truthy (atFuelStation state) && _) eqn:Hs.
    + destruct (IH (acc ++ [SURFACE_OPS "Refuel and cash in at station."]))
        as (slots & -> & Hlen & Hall).
      eexists (_ :: slots). rewrite <- app_assoc. simpl. repeat split; auto.
      constructor; auto. constructor. now apply needsSurfaceOps_test.
    + assert (Hn : ~ needsSurfaceOps state).
      { rewrite <- needsSurfaceOps_test. congruence. }
      destruct (truthy (atUpgradeShop state) && _) eqn:Hu.
      * destruct (IH (acc ++ [UPGRADE "FUEL" "Buying fuel upgrade."]))
          as (slots & -> & Hlen & Hall).
        eexists (_ :: slots). rewrite <- app_assoc. simpl. repeat split; auto.
        constructor; auto. constructor; auto. now apply canBuyFuelUpgrade_test.
      * destruct (IH (acc ++ [MOVE "D" "Server plan: move down."]))
          as (slots & -> & Hlen & Hall).
        eexists (_ :: slots). rewrite <- app_assoc. simpl. repeat split; auto.
        constructor; auto. constructor; auto.
        rewrite <- canBuyFuelUpgrade_test. congruence.
Qed.

Lemma planCap_clamp planLength : planCap planLength = clamp planLength 1 10.
Proof. unfold planCap, clamp. destruct (Z.eqb_spec planLength 0); lia. Qed.

Lemma planActions_length state planLength :
  Z.of_nat (length (planActions state planLength)) = clamp planLength 1 10.
Proof.
  unfold planActions.
  destruct (planActions_loop_spec state (Z.to_nat (planCap planLength)) [])
    as (slots & -> & Hlen & _).
  simpl. rewrite Hlen, planCap_clamp. unfold clamp. lia.
Qed.

(** C1.  For every state the fallback planner returns exactly
    [clamp planLength 1 10] actions, hence exactly [planLength] of them when
    [planLength] is in [1,10], and every slot holds the action the rules
    give in their order: [SURFACE_OPS] at the fuel station with cargo on
    board or fuel missing, else [UPGRADE FUEL] at the shop with money >= 150,
    else [MOVE D]. *)
Theorem planActions_fallback_rules (state : State) (planLength : Z) :
  Z.of_nat (length (planActions state planLength)) = clamp planLength 1 10
  /\ (1 <= planLength <= 10 ->
      Z.of_nat (length (planActions state planLength)) = planLength)
  /\ Forall (fallbackRule state) (planActions state planLength).
Proof.
  split; [apply planActions_length|]. split.
  - intros H. rewrite planActions_length. unfold clamp. lia.
  - unfold planActions.
    destruct (planActions_loop_spec state (Z.to_nat (planCap planLength)) [])
      as (slots & -> & _ & Hall).
    exact Hall.
Qed.

Lemma planActions_fallback_rules_witness :
  Z.of_nat (length (planActions testState 3)) = 3.
Proof.
  apply (proj1 (proj2 (planActions_fallback_rules testState 3))). lia.
Defined.

(** ** The fuel-run counter *)

Lemma updateFuelRunCount_step session state :
  let flag := truthy (atFuelStation state) in
  let session' := updateFuelRunCount session state in
  truthy (lastAtStation session') = flag
  /\ default 0 (fuelRuns session')
     = default 0 (fuelRuns session)
       + (if flag && negb (truthy (lastAtStation session)) then 1 else 0).
Proof.
  unfold updateFuelRunCount.
  destruct (truthy (atFuelStation state)); simpl.
  - destruct (truthy (lastAtStation session)) eqn:Hlast; simpl.
    + split; [exact Hlast | lia].
    + split; [reflexivity | lia].
  - split; [reflexivity | lia].
Qed.

Lemma fuelRuns_fold states : forall session,
  default 0 (fuelRuns (fold_left updateFuelRunCount states session))
  = default 0 (fuelRuns session)
    + Z.of_nat (risingEdges (truthy (lastAtStation session))
                  (map (fun s => truthy (atFuelStation s)) states)).
Proof.
  induction states as [|state states IH]; intros session; simpl.
  - lia.
  - rewrite IH.
    destruct (updateFuelRunCount_step session state) as [-> ->].
    destruct (truthy (atFuelStation state) && _); lia.
Qed.

(** C8.  Fed a sequence of states, the fuel-run counter grows by the number
    of transitions of [atFuelStation] into true, counted from the session's
    last flag (false in a fresh session); it does not grow while the flag
    stays true.  On a fresh session the flags true, true, false, true
    leave the counter at exactly 2. *)
Theorem fuelRuns_counts_transitions :
  (forall (session : SessionMemory) (states : list State),
      default 0 (fuelRuns (fold_left updateFuelRunCount states session))
      = default 0 (fuelRuns session)
        + Z.of_nat (risingEdges (truthy (lastAtStation session))
                      (map (fun s => truthy (atFuelStation s)) states)))
  /\ (forall (session : SessionMemory) (state : State),
         truthy (lastAtStation session) = true ->
         truthy (atFuelStation state) = true ->
         updateFuelRunCount session state = session)
  /\ (forall id : string,
         fuelRuns (fold_left updateFuelRunCount
                     (map stateAtStation [true; true; false; true])
                     (newSession id))
         = Some 2).
Proof.
  split; [intros; apply fuelRuns_fold|]. split.
  - intros session state Hlast Hflag. unfold updateFuelRunCount.
    now rewrite Hflag, Hlast.
  - intros id. reflexivity.
Qed.

Lemma fuelRuns_counts_transitions_witness :
  updateFuelRunCount
    (updateFuelRunCount (newSession "default") (stateAtStation true))
    (stateAtStation true)
  = updateFuelRunCount (newSession "default") (stateAtStation true).
Proof.
  apply (proj1 (proj2 fuelRuns_counts_transitions)); reflexivity.
Defined.

(** ** The fuel-return hint *)

Lemma buildFuelHint_shouldReturn state :
  shouldReturn (buildFuelHint state) = true
  <-> (fuel_cur (fuel state) <= estReturnFuel (buildFuelHint state) + 8)%Q.
Proof. unfold buildFuelHint; simpl. apply Qle_bool_iff. Qed.

(** C4, as the code has it.  The estimated return fuel is
    [returnDy * (baseTurnFuel + upThrustFuel)] plus
    [returnDx * (baseTurnFuel + digCost + 1)] below the surface row
    ([pos.y > 1]) or [returnDx * (baseTurnFuel + airMoveCost)] at or above
    it, with [returnDy = max 0 (pos.y - 1)] and
    [returnDx = |pos.x - stationX|]; and [shouldReturn] is true exactly
    when [fuel.cur <= estReturnFuel + 8]. *)
Theorem buildFuelHint_estimate (state : State) :
  let h := buildFuelHint state in
  returnDy h = Z.max 0 (pos_y (pos state) - 1)
  /\ returnDx h = Z.abs (pos_x (pos state) - stationX h)
  /\ (estReturnFuel h ==
      inject_Z (returnDy h) * (ruleBaseTurnFuel state + upThrustFuel)
      + inject_Z (returnDx h)
        * (if 1 <? pos_y (pos state)
           then ruleBaseTurnFuel state + digCost state + 1
           else ruleBaseTurnFuel state + airMoveCost))%Q
  /\ (shouldReturn h = true
      <-> (fuel_cur (fuel state) <= estReturnFuel h + 8)%Q).
Proof.
  intros h. split; [reflexivity|]. split; [reflexivity|]. split.
  - subst h. unfold buildFuelHint, digCost, airMoveCost; simpl.
    destruct (1 <? pos_y (pos state)); ring.
  - apply buildFuelHint_shouldReturn.
Qed.

(** C4 as stated fails one row below the surface: with the default
    constants the code estimates 7 where the stated formula gives 6, and
    with 15 units of fuel the hint says to return although 15 > 6 + 8. *)
Lemma fuelHint_as_stated_fails : ~ fuelHint_as_stated belowSurfaceState.
Proof.
  intros [Hest _]. vm_compute in Hest. discriminate Hest.
Qed.

(** ** Configuration absence and upstream failure *)

(** C9.  Without an API key the planner answers with the fallback plan and
    the note [fallback-no-key], whatever the state and plan length: the
    plan is never empty, it has [min planLength 10] actions when
    [planLength >= 1], no request goes to the model and the module state is
    untouched. *)
Theorem no_key_uses_fallback (cfg : Config) (w : World) (state : State)
  (planLength : Z) (sessionId : option string)
  (fuelNavigator : option FuelNavigatorPayload) (first second : ApiResult) :
  OPENROUTER_API_KEY cfg = EmptyString ->
  let o := callOpenRouterPlan cfg w state planLength sessionId fuelNavigator
             first second in
  note (response o) = "fallback-no-key"%string
  /\ actions (response o) = planActions state planLength
  /\ actions (response o) <> []
  /\ (1 <= planLength ->
      Z.of_nat (length (actions (response o))) = Z.min planLength 10)
  /\ requests o = []
  /\ world o = w.
Proof.
  intros Hkey o. subst o. unfold callOpenRouterPlan. rewrite Hkey. simpl.
  repeat split; auto.
  - intros Hnil.
    pose proof (planActions_length state planLength) as Hlen.
    rewrite Hnil in Hlen. unfold clamp in Hlen. simpl in Hlen. lia.
  - intros Hpl. rewrite planActions_length. unfold clamp. lia.
Qed.

Lemma no_key_uses_fallback_witness :
  note (response (callOpenRouterPlan noKeyConfig initialWorld testState 3 None None
                    (ApiOk None None None) (ApiOk None None None)))
  = "fallback-no-key"%string.
Proof.
  apply (no_key_uses_fallback noKeyConfig initialWorld testState 3 None None
           (ApiOk None None None) (ApiOk None None None)).
  reflexivity.
Defined.

(** C3.  With a key configured and the plan budget not used up, a failure
    of the planning call (the timeout aborting it, an abort from outside,
    or any other request failure) gives the status [api_error] with an
    empty action list, whatever the correction call would have given; the
    planning request is the only one issued. *)
Theorem api_failure_is_surfaced (cfg : Config) (w : World) (state : State)
  (planLength : Z) (sessionId : option string)
  (fuelNavigator : option FuelNavigatorPayload) (err : ApiFailure)
  (second : ApiResult) :
  OPENROUTER_API_KEY cfg <> EmptyString ->
  ~ (0 < MAX_PLANS_PER_SESSION cfg /\ MAX_PLANS_PER_SESSION cfg <= planCount w) ->
  let o := callOpenRouterPlan cfg w state planLength sessionId fuelNavigator
             (ApiError err) second in
  status (response o) = Some "api_error"%string
  /\ actions (response o) = []
  /\ note (response o) = "api-error"%string
  /\ length (requests o) = 1%nat
  /\ planCount (world o) = planCount w.
Proof.
  intros Hkey Hbudget o. subst o. unfold callOpenRouterPlan.
  destruct (OPENROUTER_API_KEY cfg) eqn:Hk; [congruence|]. simpl.
  destruct ((0 <? MAX_PLANS_PER_SESSION cfg)
            && (MAX_PLANS_PER_SESSION cfg <=? planCount w)) eqn:Hb.
  - exfalso. apply Hbudget.
    apply andb_true_iff in Hb as [H1 H2]. split; lia.
  - destruct (getSession w sessionId) as [session w'] eqn:Hget. simpl.
    repeat split; auto.
    unfold getSession in Hget.
    destruct (sessions w !! sessionKey sessionId); inversion Hget; reflexivity.
Qed.

Lemma api_failure_is_surfaced_witness :
  status (response (callOpenRouterPlan keyConfig initialWorld testState 3 None None
                      (ApiError (AbortedByTimeout "Request was aborted."))
                      (ApiOk None None None)))
  = Some "api_error"%string.
Proof.
  apply (api_failure_is_surfaced keyConfig initialWorld testState 3 None None
           (AbortedByTimeout "Request was aborted.") (ApiOk None None None)).
  - discriminate.
  - simpl. lia.
Defined.

(** ** Spatial memory *)

Lemma size_1_unique (m : gmap (Z * Z) ascii) i j x y :
  size m = 1%nat -> m !! i = Some x -> m !! j = Some y -> i = j.
Proof.
  intros Hsize Hi Hj. destruct (decide (i = j)) as [|Hne]; [assumption|].
  exfalso.
  pose proof (map_size_delete_Some i m (ex_intro _ x Hi)) as Hdel.
  assert (Hempty : delete i m = ∅) by (apply map_size_empty_inv; lia).
  assert (Hl : delete i m !! j = Some y) by (rewrite lookup_delete_ne; auto).
  rewrite Hempty, lookup_empty in Hl. discriminate.
Qed.

Lemma storeTile_boxInvariant kb gx gy t :
  boxInvariant kb -> boxInvariant (storeTile kb gx gy t).
Proof.
  destruct kb as [k b]. unfold boxInvariant, storeTile, inBox. simpl.
  intros (Hx & Hy & Hin).
  destruct (Nat.eqb_spec (size (<[(gx, gy):=t]> k)) 1) as [Hone|Hmany]; simpl.
  - split; [lia|]. split; [lia|]. intros g t' Hg.
    assert (Heq : (gx, gy) = g).
    { eapply size_1_unique; [exact Hone | apply lookup_insert_eq | exact Hg]. }
    subst g. simpl. lia.
  - split; [lia|]. split; [lia|]. intros g t' Hg.
    destruct (decide ((gx, gy) = g)) as [<-|Hne]; simpl; [lia|].
    rewrite lookup_insert_ne in Hg by assumption.
    specialize (Hin g t' Hg). lia.
Qed.

Lemma updateMemory_row_cells baseX gy row : forall rx kb,
  updateMemory_row baseX gy rx row kb
  = fold_left storeCell (cellsRow baseX gy rx row) kb.
Proof.
  induction row as [|t row IH]; intros rx kb; simpl; [reflexivity|].
  now rewrite IH.
Qed.

Lemma updateMemory_rows_cells baseX baseY rows : forall ry kb,
  updateMemory_rows baseX baseY ry rows kb
  = fold_left storeCell (cellsRows baseX baseY ry rows) kb.
Proof.
  induction rows as [|row rows IH]; intros ry kb; simpl; [reflexivity|].
  now rewrite IH, updateMemory_row_cells, fold_left_app.
Qed.

Lemma fold_storeCell_boxInvariant cells : forall kb,
  boxInvariant kb -> boxInvariant (fold_left storeCell cells kb).
Proof.
  induction cells as [|c cells IH]; intros kb Hinv; simpl; [assumption|].
  apply IH. now apply storeTile_boxInvariant.
Qed.

Lemma updateMemory_boxInvariant session state :
  sessionBoxInvariant session -> sessionBoxInvariant (updateMemory session state).
Proof.
  unfold sessionBoxInvariant, updateMemory. simpl. intros Hinv.
  rewrite updateMemory_rows_cells.
  rewrite <- surjective_pairing.
  now apply fold_storeCell_boxInvariant.
Qed.

Lemma newSession_boxInvariant id : sessionBoxInvariant (newSession id).
Proof.
  unfold sessionBoxInvariant, boxInvariant. simpl.
  split; [lia|]. split; [lia|]. intros g t Hg.
  rewrite lookup_empty in Hg. discriminate.
Qed.

Lemma fold_updateMemory_boxInvariant states : forall session,
  sessionBoxInvariant session ->
  sessionBoxInvariant (fold_left updateMemory states session).
Proof.
  induction states as [|state states IH]; intros session Hinv; simpl; [assumption|].
  apply IH. now apply updateMemory_boxInvariant.
Qed.

(** C6.  After any sequence of memory updates applied to a fresh session,
    the box is well formed ([minX <= maxX], [minY <= maxY]) and every
    coordinate with a known tile lies inside it. *)
Theorem bounds_enclose_known (id : string) (states : list State) :
  let session := fold_left updateMemory states (newSession id) in
  minX (bounds session) <= maxX (bounds session)
  /\ minY (bounds session) <= maxY (bounds session)
  /\ forall gx gy : Z,
       (gx, gy) ∈ dom (known session) ->
       minX (bounds session) <= gx <= maxX (bounds session)
       /\ minY (bounds session) <= gy <= maxY (bounds session).
Proof.
  intros session.
  destruct (fold_updateMemory_boxInvariant states (newSession id)
              (newSession_boxInvariant id)) as (Hx & Hy & Hin).
  fold session in Hx, Hy, Hin. simpl in *.
  split; [exact Hx|]. split; [exact Hy|].
  intros gx gy Hdom. apply elem_of_dom in Hdom as [t Ht].
  exact (Hin (gx, gy) t Ht).
Qed.

Lemma settled_fixed kb c : settled kb c -> storeCell kb c = kb.
Proof.
  destruct kb as [k b], c as [[gx gy] t].
  unfold settled, storeCell, storeTile, inBox. simpl.
  intros (Hk & Hbox & Hone).
  rewrite (insert_id k (gx, gy) t Hk).
  destruct (Nat.eqb_spec (size k) 1) as [H1|H1].
  - now rewrite (Hone H1).
  - f_equal. destruct b as [x0 x1 y0 y1]. simpl in *. f_equal; lia.
Qed.

Lemma storeCell_settles kb c : settled (storeCell kb c) c.
Proof.
  destruct kb as [k b], c as [[gx gy] t].
  unfold settled, storeCell, storeTile, inBox. simpl.
  destruct (Nat.eqb_spec (size (<[(gx, gy):=t]> k)) 1) as [H1|H1]; simpl.
  - split; [apply lookup_insert_eq|]. split; [lia|]. reflexivity.
  - split; [apply lookup_insert_eq|]. split; [lia|]. intros H. contradiction.
Qed.

Lemma storeCell_keeps kb c c' :
  settled kb c -> fst c <> fst c' -> settled (storeCell kb c') c.
Proof.
  destruct kb as [k b], c as [[gx gy] t], c' as [[gx' gy'] t'].
  unfold settled, storeCell, storeTile, inBox. simpl.
  intros (Hk & Hbox & _) Hne.
  assert (Hc : <[(gx', gy'):=t']> k !! (gx, gy) = Some t).
  { rewrite lookup_insert_ne; [exact Hk | congruence]. }
  assert (Hmany : size (<[(gx', gy'):=t']> k) <> 1%nat).
  { intros Hone. apply Hne. symmetry.
    eapply size_1_unique; [exact Hone | apply lookup_insert_eq | exact Hc]. }
  destruct (Nat.eqb_spec (size (<[(gx', gy'):=t']> k)) 1) as [H1|H1];
    [contradiction|]. simpl.
  split; [exact Hc|]. split; [lia|]. intros H. contradiction.
Qed.

Lemma fold_storeCell_keeps cells : forall kb c,
  settled kb c -> ~ List.In (fst c) (map fst cells) ->
  settled (fold_left storeCell cells kb) c.
Proof.
  induction cells as [|c' cells IH]; intros kb c Hs Hnotin; simpl; [assumption|].
  simpl in Hnotin. apply IH.
  - apply storeCell_keeps; [assumption|]. intros Heq. apply Hnotin. now left.
  - intros Hin. apply Hnotin. now right.
Qed.

Lemma fold_storeCell_settles cells :
  List.NoDup (map fst cells) ->
  forall kb c, List.In c cells -> settled (fold_left storeCell cells kb) c.
Proof.
  induction cells as [|c0 cells IH]; intros Hnd kb c Hin; simpl in *; [contradiction|].
  apply List.NoDup_cons_iff in Hnd as [Hfresh Hnd].
  destruct Hin as [->|Hin].
  - apply fold_storeCell_keeps; [apply storeCell_settles | assumption].
  - now apply IH.
Qed.

Lemma fold_storeCell_fixed cells : forall kb,
  (forall c, List.In c cells -> settled kb c) ->
  fold_left storeCell cells kb = kb.
Proof.
  induction cells as [|c cells IH]; intros kb Hall; simpl; [reflexivity|].
  rewrite settled_fixed by (apply Hall; now left).
  apply IH. intros c' Hin. apply Hall. now right.
Qed.

Lemma cellsRow_keys baseX gy row : forall rx g,
  List.In g (map fst (cellsRow baseX gy rx row)) ->
  baseX + rx <= fst g /\ snd g = gy.
Proof.
  induction row as [|t row IH]; intros rx g Hin; simpl in *; [contradiction|].
  destruct Hin as [<-|Hin]; simpl; [lia|].
  apply IH in Hin. lia.
Qed.

Lemma cellsRow_NoDup baseX gy row : forall rx,
  List.NoDup (map fst (cellsRow baseX gy rx row)).
Proof.
  induction row as [|t row IH]; intros rx; simpl; constructor.
  - intros Hin. apply cellsRow_keys in Hin. simpl in Hin. lia.
  - apply IH.
Qed.

Lemma cellsRows_keys baseX baseY rows : forall ry g,
  List.In g (map fst (cellsRows baseX baseY ry rows)) -> baseY + ry <= snd g.
Proof.
  induction rows as [|row rows IH]; intros ry g Hin; simpl in *; [contradiction|].
  rewrite map_app in Hin. apply in_app_iff in Hin as [Hin|Hin].
  - apply cellsRow_keys in Hin. lia.
  - apply IH in Hin. lia.
Qed.

Lemma cellsRows_NoDup baseX baseY rows : forall ry,
  List.NoDup (map fst (cellsRows baseX baseY ry rows)).
Proof.
  induction rows as [|row rows IH]; intros ry; simpl; [constructor|].
  rewrite map_app. apply List.NoDup_app.
  - apply cellsRow_NoDup.
  - apply IH.
  - intros g Hrow Hrest.
    apply cellsRow_keys in Hrow. apply cellsRows_keys in Hrest. lia.
Qed.

Lemma fold_storeCell_idempotent cells kb :
  List.NoDup (map fst cells) ->
  fold_left storeCell cells (fold_left storeCell cells kb)
  = fold_left storeCell cells kb.
Proof.
  intros Hnd. apply fold_storeCell_fixed.
  intros c Hin. now apply fold_storeCell_settles.
Qed.

(** C7.  For every session and state, a second [updateMemory] with the same
    state leaves the known-tile map and the bounds as the first one left
    them. *)
Theorem updateMemory_idempotent (session : SessionMemory) (state : State) :
  known (updateMemory (updateMemory session state) state)
  = known (updateMemory session state)
  /\ bounds (updateMemory (updateMemory session state) state)
     = bounds (updateMemory session state).
Proof.
  unfold updateMemory. simpl.
  rewrite <- surjective_pairing.
  rewrite !updateMemory_rows_cells.
  rewrite fold_storeCell_idempotent by apply cellsRows_NoDup.
  split; reflexivity.
Qed.

(** ** Tokenizing *)

Lemma append_Empty (s : string) : EmptyString +:+ s = s.
Proof. reflexivity. Qed.

Lemma append_String c (s s' : string) : String c s +:+ s' = String c (s +:+ s').
Proof. reflexivity. Qed.

Ltac push_append := rewrite ?append_String, ?append_Empty.

Lemma append_empty_r (s : string) : s +:+ EmptyString = s.
Proof. induction s as [|c s IH]; push_append; [reflexivity | now rewrite IH]. Qed.

Lemma trimStart_blank lead s : blank lead -> trimStart (lead +:+ s) = trimStart s.
Proof.
  unfold blank. induction lead as [|c lead IH]; push_append; simpl; [reflexivity|].
  intros H. apply andb_true_iff in H as [Hc Hlead]. rewrite Hc. now apply IH.
Qed.

Lemma trimStart_word t s : word t -> trimStart (t +:+ s) = t +:+ s.
Proof.
  intros [Hne Hall]. destruct t as [|c t]; [congruence|]. simpl in Hall.
  apply andb_true_iff in Hall as [Hc _]. apply negb_true_iff in Hc.
  push_append. simpl. now rewrite Hc.
Qed.

Lemma trimEnd_nonspace_char c s :
  isSpace c = false -> trimEnd (String c s) = String c (trimEnd s).
Proof. intros Hc. simpl. rewrite Hc. now destruct (trimEnd s). Qed.

Lemma trimEnd_nonspace t s :
  allChars (fun c => negb (isSpace c)) t = true ->
  trimEnd (t +:+ s) = t +:+ trimEnd s.
Proof.
  induction t as [|c t IH]; intros Hall; [reflexivity|].
  simpl in Hall. apply andb_true_iff in Hall as [Hc Hall].
  apply negb_true_iff in Hc.
  change (String c t +:+ s) with (String c (t +:+ s)).
  rewrite trimEnd_nonspace_char by assumption. now rewrite IH.
Qed.

Lemma trimEnd_blank ws s :
  blank ws ->
  trimEnd (ws +:+ s) = if isEmpty (trimEnd s) then EmptyString else ws +:+ trimEnd s.
Proof.
  unfold blank. induction ws as [|c ws IH]; intros Hall.
  - push_append. now destruct (trimEnd s).
  - simpl in Hall. apply andb_true_iff in Hall as [Hc Hall].
    push_append. simpl. rewrite (IH Hall), Hc.
    destruct (trimEnd s); simpl; [reflexivity|].
    destruct ws; push_append; reflexivity.
Qed.

Lemma core_nonempty p pieces : isEmpty (core (p :: pieces)) = true -> ~ word (fst p).
Proof.
  destruct p as [t ws]. simpl. intros H [Hne _].
  destruct t; [congruence|]. rewrite append_String in H. discriminate.
Qed.

Lemma trimEnd_render pieces : forall ws,
  blank ws -> wellSeparated pieces ->
  trimEnd (render ws pieces)
  = match pieces with [] => EmptyString | _ => ws +:+ core pieces end.
Proof.
  induction pieces as [|[t ws'] pieces IH]; intros ws Hws Hsep.
  - simpl. rewrite <- (append_empty_r ws) at 1. now rewrite trimEnd_blank.
  - destruct Hsep as (Hword & Hws' & Hne & Hsep).
    assert (Hcore : trimEnd (t +:+ render ws' pieces) = core ((t, ws') :: pieces)).
    { rewrite trimEnd_nonspace by apply Hword. rewrite IH by assumption. reflexivity. }
    change (render ws ((t, ws') :: pieces)) with (ws +:+ (t +:+ render ws' pieces)).
    rewrite trimEnd_blank by assumption. rewrite Hcore.
    destruct (isEmpty (core ((t, ws') :: pieces))) eqn:He; [|reflexivity].
    now apply core_nonempty in He.
Qed.

Lemma trim_render lead pieces :
  blank lead -> wellSeparated pieces -> trim (render lead pieces) = core pieces.
Proof.
  intros Hlead Hsep. unfold trim. destruct pieces as [|[t ws] pieces].
  - simpl. rewrite <- (append_empty_r lead), trimStart_blank by assumption.
    reflexivity.
  - destruct Hsep as (Hword & Hws & Hne & Hsep).
    change (render lead ((t, ws) :: pieces)) with (lead +:+ (t +:+ render ws pieces)).
    rewrite trimStart_blank by assumption.
    rewrite trimStart_word by assumption.
    rewrite trimEnd_nonspace by apply Hword.
    now rewrite trimEnd_render.
Qed.

Lemma split_ws_not_nil s : forall b, split_ws b s <> [].
Proof.
  induction s as [|c s IH]; intros b; simpl; [discriminate|].
  destruct (isSpace c).
  - destruct b; [apply IH | discriminate].
  - destruct (split_ws false s); discriminate.
Qed.

Lemma split_ws_nonspace t s :
  t <> EmptyString -> allChars (fun c => negb (isSpace c)) t = true ->
  forall b,
    split_ws b (t +:+ s)
    = (t +:+ hd EmptyString (split_ws false s)) :: tl (split_ws false s).
Proof.
  induction t as [|c t IH]; intros Hne Hall b; [congruence|].
  simpl in Hall. apply andb_true_iff in Hall as [Hc Hall].
  apply negb_true_iff in Hc. rewrite !append_String. simpl. rewrite Hc.
  destruct t as [|c' t].
  - push_append. pose proof (split_ws_not_nil s false) as Hnn.
    destruct (split_ws false s); [congruence | reflexivity].
  - rewrite (IH ltac:(discriminate) Hall false). reflexivity.
Qed.

Lemma split_ws_blank_true ws s : blank ws -> split_ws true (ws +:+ s) = split_ws true s.
Proof.
  unfold blank. induction ws as [|c ws IH]; intros Hall; [reflexivity|].
  simpl in Hall. apply andb_true_iff in Hall as [Hc Hall].
  push_append. simpl. rewrite Hc. now apply IH.
Qed.

Lemma split_ws_blank_false ws s :
  blank ws -> ws <> EmptyString ->
  split_ws false (ws +:+ s) = EmptyString :: split_ws true s.
Proof.
  intros Hall Hne. destruct ws as [|c ws]; [congruence|].
  unfold blank in Hall. simpl in Hall. apply andb_true_iff in Hall as [Hc Hall].
  push_append. simpl. rewrite Hc. now rewrite split_ws_blank_true.
Qed.

Lemma split_ws_core pieces :
  wellSeparated pieces -> pieces <> [] ->
  forall b, split_ws b (core pieces) = map fst pieces.
Proof.
  induction pieces as [|[t ws] pieces IH]; intros Hsep Hnn b; [congruence|].
  destruct Hsep as ((Hne & Hall) & Hws & Hwsne & Hsep).
  assert (Hrest : split_ws false
                    match pieces with [] => EmptyString | _ => ws +:+ core pieces end
                  = EmptyString :: map fst pieces).
  { destruct pieces as [|p pieces]; [reflexivity|].
    rewrite split_ws_blank_false by (auto; apply Hwsne; discriminate).
    now rewrite (IH Hsep ltac:(discriminate) true). }
  change (core ((t, ws) :: pieces))
    with (t +:+ match pieces with [] => EmptyString | _ => ws +:+ core pieces end).
  rewrite split_ws_nonspace by assumption.
  rewrite Hrest. simpl. now rewrite append_empty_r.
Qed.

Lemma wellSeparated_words pieces :
  wellSeparated pieces -> Forall word (map fst pieces).
Proof.
  induction pieces as [|[t ws] pieces IH]; simpl; intros Hsep; constructor.
  - apply Hsep.
  - apply IH, Hsep.
Qed.

Lemma filter_words (l : list string) :
  Forall word l -> List.filter (fun t => negb (isEmpty t)) l = l.
Proof.
  induction 1 as [|t l [Hne _] _ IH]; [reflexivity|].
  cbn [List.filter]. destruct t; [congruence|]. simpl. now rewrite IH.
Qed.

(** The tokens of a rendered text are its words. *)
Lemma tokenize_render lead pieces :
  blank lead -> wellSeparated pieces ->
  tokenize (render lead pieces) = map fst pieces.
Proof.
  intros Hlead Hsep. unfold tokenize. rewrite trim_render by assumption.
  destruct pieces as [|p pieces]; [reflexivity|].
  rewrite split_ws_core by (auto; discriminate).
  apply filter_words. now apply wellSeparated_words.
Qed.

(** ** The token grammar *)

Lemma N_of_ascii_inj a b : N_of_ascii a = N_of_ascii b -> a = b.
Proof.
  intros H. rewrite <- (ascii_N_embedding a), <- (ascii_N_embedding b).
  now rewrite H.
Qed.

Lemma sameLetterNoCase_upper a b :
  isLowerLetter b = false ->
  sameLetterNoCase a b = true <-> toUpperCase_char a = b.
Proof.
  unfold sameLetterNoCase, toUpperCase_char, isLowerLetter, isUpperLetter.
  pose proof (N_ascii_bounded a) as Ha. pose proof (N_ascii_bounded b) as Hb.
  intros Hlow.
  rewrite !orb_true_iff, !andb_true_iff, !N.leb_le, !N.eqb_eq, Ascii.eqb_eq.
  apply andb_false_iff in Hlow. rewrite !N.leb_gt in Hlow.
  destruct ((97 <=? N_of_ascii a)%N && (N_of_ascii a <=? 122)%N) eqn:Hla.
  - apply andb_true_iff in Hla. rewrite !N.leb_le in Hla. split.
    + intros [[->|H]|H]; [lia | lia |].
      destruct H as [_ H]. apply N_of_ascii_inj.
      rewrite N_ascii_embedding by lia. lia.
    + intros <-. right. rewrite N_ascii_embedding by lia. lia.
  - apply andb_false_iff in Hla. rewrite !N.leb_gt in Hla. split.
    + intros [[->|H]|H]; [reflexivity | lia | lia].
    + intros ->. left. now left.
Qed.

Lemma matchesNoCase_upper v :
  allChars (fun c => negb (isLowerLetter c)) v = true ->
  forall s, matchesNoCase s v = true <-> toUpperCase s = v.
Proof.
  induction v as [|b v IH]; intros Hall s.
  - destruct s; simpl; split; congruence.
  - simpl in Hall. apply andb_true_iff in Hall as [Hb Hall].
    apply negb_true_iff in Hb.
    destruct s as [|a s]; simpl; [split; congruence|].
    rewrite andb_true_iff, (sameLetterNoCase_upper a b Hb), (IH Hall s).
    split; [intros [-> ->]; reflexivity | intros H; inversion H; auto].
Qed.

Lemma spells_upper s tk : spells s tk <-> toUpperCase s = Token_str tk.
Proof.
  unfold spells. apply matchesNoCase_upper.
  destruct tk as [|[]|[]]; reflexivity.
Qed.

Lemma stripPrefix_Some p : forall s r, stripPrefix p s = Some r -> s = p +:+ r.
Proof.
  induction p as [|a p IH]; intros s r H; simpl in H.
  - now inversion H.
  - destruct s as [|b s]; [discriminate|].
    destruct (Ascii.eqb_spec a b) as [->|]; [|discriminate].
    rewrite append_String. f_equal. now apply IH.
Qed.

Lemma str_in_In s l : str_in s l = true -> List.In s l.
Proof.
  unfold str_in. intros H. apply existsb_exists in H as (x & Hin & Heq).
  apply String.eqb_eq in Heq. now subst.
Qed.

Lemma tokenSchema_spec u : tokenSchema u = true <-> exists tk, u = Token_str tk.
Proof.
  split.
  - unfold tokenSchema, re_MOVE, re_UPGRADE.
    rewrite !orb_true_iff. intros [[H|H]|H].
    + apply String.eqb_eq in H. now exists TSurfaceOps.
    + destruct (stripPrefix "MOVE:" u) as [r|] eqn:Hp; [|discriminate].
      apply stripPrefix_Some in Hp. apply str_in_In in H. simpl in H.
      destruct H as [<-|[<-|[<-|[<-|[]]]]]; subst u;
        [exists (TMove U) | exists (TMove D) | exists (TMove L) | exists (TMove R)];
        reflexivity.
    + destruct (stripPrefix "UPGRADE:" u) as [r|] eqn:Hp; [|discriminate].
      apply stripPrefix_Some in Hp. apply str_in_In in H. simpl in H.
      destruct H as [<-|[<-|[<-|[<-|[]]]]]; subst u;
        [exists (TUpgrade FUEL) | exists (TUpgrade CARGO)
         | exists (TUpgrade HULL) | exists (TUpgrade DRILL)];
        reflexivity.
  - intros [tk ->]. destruct tk as [|[]|[]]; reflexivity.
Qed.

Lemma tokenSchema_spells t :
  tokenSchema (toUpperCase t) = true <-> exists tk, spells t tk.
Proof.
  rewrite tokenSchema_spec. split; intros [tk H]; exists tk; now apply spells_upper.
Qed.

Lemma forallb_tokenSchema toks :
  forallb tokenSchema (map toUpperCase toks) = true
  <-> exists tks, Forall2 spells toks tks.
Proof.
  induction toks as [|t toks IH]; simpl.
  - split; [exists []; constructor | reflexivity].
  - rewrite andb_true_iff, tokenSchema_spells, IH. split.
    + intros [[tk Htk] [tks Htks]]. exists (tk :: tks). now constructor.
    + intros [tks H]. inversion H; subst. split; eauto.
Qed.

Lemma trim_nonspace t :
  allChars (fun c => negb (isSpace c)) t = true -> trim t = t.
Proof.
  intros Hall. unfold trim.
  assert (Hs : trimStart t = t).
  { destruct t as [|c t]; [reflexivity|]. simpl in *.
    apply andb_true_iff in Hall as [Hc _]. apply negb_true_iff in Hc.
    now rewrite Hc. }
  rewrite Hs. rewrite <- (append_empty_r t) at 1.
  rewrite trimEnd_nonspace by assumption. apply append_empty_r.
Qed.

Lemma parseActionTokens_loop_spelled toks tks :
  Forall2 (fun raw tk => toUpperCase (trim raw) = Token_str tk) toks tks ->
  forall acc, parseActionTokens_loop toks acc = acc ++ map Token_action tks.
Proof.
  induction 1 as [|raw tk toks tks Hraw _ IH]; intros acc; simpl.
  - now rewrite app_nil_r.
  - rewrite Hraw.
    destruct tk as [|[]|[]]; simpl; rewrite IH, <- app_assoc; reflexivity.
Qed.

Lemma validateExecution_success text planLength :
  success (validateExecution text planLength) = true
  <-> 1 <= Z.of_nat (length (tokenize text)) <= planLength
      /\ exists tks, Forall2 spells (tokenize text) tks.
Proof.
  unfold validateExecution. simpl.
  rewrite !andb_true_iff, !Z.leb_le, length_map, forallb_tokenSchema. tauto.
Qed.

Lemma spelled_words toks tks :
  Forall word toks -> Forall2 spells toks tks ->
  Forall2 (fun raw tk => toUpperCase (trim raw) = Token_str tk) toks tks.
Proof.
  intros Hwords H. induction H as [|t tk toks tks Ht _ IH]; constructor.
  - inversion Hwords as [|? ? [_ Hns] _]; subst.
    rewrite trim_nonspace by assumption. now apply spells_upper.
  - apply IH. now inversion Hwords.
Qed.

(** Every text is white space, then words each followed by white space. *)
Lemma every_text_renders text :
  exists lead pieces,
    blank lead /\ wellSeparated pieces /\ text = render lead pieces.
Proof.
  induction text as [|c text (lead & pieces & Hlead & Hsep & ->)].
  - exists EmptyString, []. repeat split.
  - destruct (isSpace c) eqn:Hc.
    + exists (String c lead), pieces. repeat split; auto.
      * unfold blank. simpl. now rewrite Hc.
      * destruct pieces as [|[t ws] pieces]; reflexivity.
    + destruct lead as [|l lead].
      * destruct pieces as [|[t ws] pieces].
        -- exists EmptyString, [(String c EmptyString, EmptyString)].
           repeat split; try discriminate; try congruence.
           simpl. now rewrite Hc.
        -- exists EmptyString, ((String c t, ws) :: pieces).
           destruct Hsep as ((Hne & Hall) & Hrest).
           repeat split; try discriminate; try apply Hrest.
           simpl. now rewrite Hc, Hall.
      * exists EmptyString, ((String c EmptyString, String l lead) :: pieces).
        repeat split; try discriminate; auto.
        simpl. now rewrite Hc.
Qed.

(** C2.  Take a text made of white space, then words each followed by
    white space (non-empty between two words).  Validation tokenizes it
    into exactly its words.  If each word spells, in any letter case, one of
    [SURFACE_OPS], [MOVE:U|D|L|R], [UPGRADE:FUEL|CARGO|HULL|DRILL], and the
    number of words is in [1, planLength], then validation succeeds and
    parsing yields that many actions, one per word and in order, with the
    type, direction and kind the word spells.  If the number of words is
    outside [1, planLength], or some word spells no token, validation
    fails. *)
Theorem execution_grammar_round_trip (planLength : Z) (lead : string)
  (pieces : list (string * string)) :
  blank lead -> wellSeparated pieces ->
  let text := render lead pieces in
  tokens (validateExecution text planLength) = map fst pieces
  /\ (forall tks : list Token,
         Forall2 spells (map fst pieces) tks ->
         1 <= Z.of_nat (length pieces) <= planLength ->
         success (validateExecution text planLength) = true
         /\ parseActionTokens text = map Token_action tks
         /\ length (parseActionTokens text) = length pieces)
  /\ (~ (1 <= Z.of_nat (length pieces) <= planLength)
      \/ Exists (fun t => forall tk, ~ spells t tk) (map fst pieces) ->
      success (validateExecution text planLength) = false).
Proof.
  intros Hlead Hsep text.
  assert (Htok : tokenize text = map fst pieces) by now apply tokenize_render.
  split; [exact Htok|]. split.
  - intros tks Hspell Hlen. split; [|split].
    + apply validateExecution_success. rewrite Htok, length_map. eauto.
    + unfold parseActionTokens. rewrite Htok.
      apply (parseActionTokens_loop_spelled _ tks), spelled_words; auto.
      now apply wellSeparated_words.
    + unfold parseActionTokens. rewrite Htok.
      rewrite (parseActionTokens_loop_spelled _ tks)
        by (apply spelled_words; auto; now apply wellSeparated_words).
      simpl. rewrite length_map.
      apply Forall2_length in Hspell. now rewrite <- Hspell, length_map.
  - intros Hbad. apply not_true_is_false. intros Hok.
    apply validateExecution_success in Hok as [Hlen [tks Hspell]].
    rewrite Htok, ?length_map in *.
    destruct Hbad as [Hbad|Hbad]; [contradiction|].
    clear Htok Hlen. induction Hspell as [|t tk toks tks Ht _ IH].
    + inversion Hbad.
    + inversion Hbad as [? ? Hno|? ? Hex]; subst; [exact (Hno tk Ht) | auto].
Qed.

Lemma execution_grammar_round_trip_witness :
  success (validateExecution "MOVE:D move:d  Upgrade:Fuel " 3) = true
  /\ parseActionTokens "MOVE:D move:d  Upgrade:Fuel "
     = [MOVE "D" "Planned action."; MOVE "D" "Planned action.";
        UPGRADE "FUEL" "Planned action."]
  /\ length (parseActionTokens "MOVE:D move:d  Upgrade:Fuel ") = 3%nat.
Proof.
  assert (Hsep : wellSeparated
                   [("MOVE:D", " "); ("move:d", "  "); ("Upgrade:Fuel", " ")]%string).
  { simpl. unfold word, blank. repeat split; discriminate. }
  destruct (execution_grammar_round_trip 3 EmptyString _ eq_refl Hsep)
    as (_ & Hok & _).
  apply (Hok [TMove D; TMove D; TUpgrade FUEL]).
  - repeat constructor.
  - simpl. lia.
Defined.

(** ** Validation and parsing agree *)

Lemma split_ws_pieces s : forall b p,
  List.In p (split_ws b s) -> allChars (fun c => negb (isSpace c)) p = true.
Proof.
  induction s as [|c s IH]; intros b p Hin; simpl in Hin.
  - destruct Hin as [<-|[]]. reflexivity.
  - destruct (isSpace c) eqn:Hc.
    + destruct b; [now apply (IH true)|].
      destruct Hin as [<-|Hin]; [reflexivity | now apply (IH true)].
    + pose proof (IH false) as IHf.
      destruct (split_ws false s) as [|q qs].
      * destruct Hin as [<-|[]]. simpl. now rewrite Hc.
      * destruct Hin as [<-|Hin].
        -- simpl. rewrite Hc. simpl. apply IHf. now left.
        -- apply IHf. now right.
Qed.

Lemma tokenize_words text : Forall word (tokenize text).
Proof.
  unfold tokenize. apply List.Forall_forall. intros t Hin.
  apply List.filter_In in Hin as [Hin Hne]. split.
  - intros ->. discriminate.
  - now apply split_ws_pieces in Hin.
Qed.

Lemma validated_parse_length text planLength :
  success (validateExecution text planLength) = true ->
  length (parseActionTokens text) = length (tokenize text)
  /\ 1 <= Z.of_nat (length (parseActionTokens text)) <= planLength.
Proof.
  intros Hok. apply validateExecution_success in Hok as [Hlen [tks Hspell]].
  assert (Hparse : length (parseActionTokens text) = length (tokenize text)).
  { unfold parseActionTokens.
    rewrite (parseActionTokens_loop_spelled _ tks)
      by (apply spelled_words; auto using tokenize_words).
    simpl. rewrite length_map. symmetry. now apply Forall2_length in Hspell. }
  split; [exact Hparse|]. now rewrite Hparse.
Qed.

Lemma requestCorrection_note cfg planLength result r :
  requestCorrection cfg planLength result = Some r ->
  note r = "openrouter-corrected"%string.
Proof.
  unfold requestCorrection. intros H.
  destruct result as [content reasoningText details|e]; [|discriminate].
  destruct (extractExecutionText _) as [executionText|]; [|discriminate].
  destruct (isEmpty executionText); [discriminate|].
  destruct (negb _); [discriminate|].
  destruct (_ || _); [discriminate|].
  now inversion H.
Qed.

(** C10.  When [validateExecution] accepts a text for a plan length,
    [parseActionTokens] yields on that text as many actions as validation
    counted tokens, so between 1 and [planLength]; hence no run of
    [callOpenRouterPlan] ends in the [bad-execution-parse] answer. *)
Theorem validated_text_parses_fully :
  (forall (text : string) (planLength : Z),
      success (validateExecution text planLength) = true ->
      length (parseActionTokens text)
      = length (tokens (validateExecution text planLength))
      /\ 1 <= Z.of_nat (length (parseActionTokens text)) <= planLength)
  /\ (forall (cfg : Config) (w : World) (state : State) (planLength : Z)
        (sessionId : option string) (fuelNavigator : option FuelNavigatorPayload)
        (first second : ApiResult),
         note (response (callOpenRouterPlan cfg w state planLength sessionId
                           fuelNavigator first second))
         <> "bad-execution-parse"%string).
Proof.
  split; [intros text planLength; apply validated_parse_length|].
  intros cfg w state planLength sessionId fuelNavigator first second.
  unfold callOpenRouterPlan.
  destruct (isEmpty (OPENROUTER_API_KEY cfg)); [discriminate|].
  destruct (_ && _); [discriminate|].
  destruct (getSession w sessionId) as [session w'].
  destruct first as [content reasoningText details|e]; [|discriminate].
  assert (Hcorr : forall fallback : PlanResponse,
             note fallback <> "bad-execution-parse"%string ->
             note match requestCorrection cfg planLength second with
                  | Some correctionResponse => correctionResponse
                  | None => fallback
                  end <> "bad-execution-parse"%string).
  { intros fallback Hf.
    destruct (requestCorrection cfg planLength second) as [r|] eqn:Hr; [|exact Hf].
    rewrite (requestCorrection_note _ _ _ _ Hr). discriminate. }
  destruct (extractExecutionText _) as [executionText|];
    [|apply Hcorr; discriminate].
  destruct (isEmpty executionText); [apply Hcorr; discriminate|].
  destruct (success (validateExecution executionText planLength)) eqn:Hok;
    simpl; [|apply Hcorr; discriminate].
  destruct (validated_parse_length _ _ Hok) as [_ Hrange].
  destruct (_ || _) eqn:Hbad; [|discriminate].
  exfalso. apply orb_true_iff in Hbad as [H|H]; lia.
Qed.

Lemma validated_text_parses_fully_witness :
  length (parseActionTokens "MOVE:D MOVE:D MOVE:R") = 3%nat
  /\ 1 <= Z.of_nat (length (parseActionTokens "MOVE:D MOVE:D MOVE:R")) <= 3.
Proof.
  apply (proj1 validated_text_parses_fully "MOVE:D MOVE:D MOVE:R"%string 3).
  reflexivity.
Defined.

(** ** Effects of an accepted plan *)

Lemma getSession_planCount w sessionId :
  planCount (snd (getSession w sessionId)) = planCount w.
Proof.
  unfold getSession. now destruct (sessions w !! sessionKey sessionId).
Qed.

(** Whenever the planning call answers, the session gains one user turn
    holding the summary of the payload and one assistant turn holding the
    combined model text (or its placeholder when that text is empty). *)
Lemma answered_call_history cfg w state planLength sessionId fuelNavigator
  content reasoningText details second :
  OPENROUTER_API_KEY cfg <> EmptyString ->
  ~ (0 < MAX_PLANS_PER_SESSION cfg /\ MAX_PLANS_PER_SESSION cfg <= planCount w) ->
  let o := callOpenRouterPlan cfg w state planLength sessionId fuelNavigator
             (ApiOk content reasoningText details) second in
  let combinedText := combineText (default EmptyString content) reasoningText in
  sessions (world o) !! sessionKey sessionId
  = Some (appendHistory
            (appendHistory (workingSession w state sessionId) user
               (JsonSummary
                  (summarizeUserPayloadForHistory
                     (workingPayload w state planLength sessionId fuelNavigator))))
            assistant (Text (str_or combinedText "<empty>"))).
Proof.
  intros Hkey Hbudget o combinedText. subst o.
  unfold callOpenRouterPlan, workingPayload, workingSession.
  destruct (OPENROUTER_API_KEY cfg) eqn:Hk; [congruence|]. simpl isEmpty. cbv iota.
  destruct ((0 <? MAX_PLANS_PER_SESSION cfg)
            && (MAX_PLANS_PER_SESSION cfg <=? planCount w)) eqn:Hb.
  { exfalso. apply Hbudget. apply andb_true_iff in Hb as [H1 H2]. split; lia. }
  destruct (getSession w sessionId) as [session w']. simpl fst.
  fold combinedText.
  destruct (extractExecutionText combinedText) as [executionText|];
    [|apply lookup_insert_eq].
  destruct (isEmpty executionText); [apply lookup_insert_eq|].
  destruct (negb _); [apply lookup_insert_eq|].
  destruct (_ || _); apply lookup_insert_eq.
Qed.

(** A plan accepted at the first attempt is counted. *)
Lemma accepted_plan_counted cfg w state planLength sessionId fuelNavigator
  first second :
  let o := callOpenRouterPlan cfg w state planLength sessionId fuelNavigator
             first second in
  note (response o) = "openrouter"%string ->
  planCount (world o) = planCount w + 1.
Proof.
  intros o. subst o. unfold callOpenRouterPlan.
  destruct (isEmpty (OPENROUTER_API_KEY cfg)); [discriminate|].
  destruct (_ && _); [discriminate|].
  pose proof (getSession_planCount w sessionId) as Hcount.
  destruct (getSession w sessionId) as [session w']. simpl in Hcount.
  destruct first as [content reasoningText details|e]; [|discriminate].
  assert (Hcorr : forall fallback : PlanResponse,
             note fallback <> "openrouter"%string ->
             note match requestCorrection cfg planLength second with
                  | Some correctionResponse => correctionResponse
                  | None => fallback
                  end <> "openrouter"%string).
  { intros fallback Hf.
    destruct (requestCorrection cfg planLength second) as [r|] eqn:Hr; [|exact Hf].
    rewrite (requestCorrection_note _ _ _ _ Hr). discriminate. }
  destruct (extractExecutionText _) as [executionText|];
    [|intros H; exfalso; revert H; apply Hcorr; discriminate].
  destruct (isEmpty executionText);
    [intros H; exfalso; revert H; apply Hcorr; discriminate|].
  destruct (negb _);
    [intros H; exfalso; revert H; apply Hcorr; discriminate|].
  destruct (_ || _); [discriminate|].
  intros _. simpl. now rewrite Hcount.
Qed.

(** A plan accepted after the correction round is not counted. *)
Lemma corrected_plan_uncounted cfg w state planLength sessionId fuelNavigator
  first second :
  let o := callOpenRouterPlan cfg w state planLength sessionId fuelNavigator
             first second in
  note (response o) = "openrouter-corrected"%string ->
  planCount (world o) = planCount w.
Proof.
  intros o. subst o. unfold callOpenRouterPlan.
  destruct (isEmpty (OPENROUTER_API_KEY cfg)); [discriminate|].
  destruct (_ && _); [discriminate|].
  pose proof (getSession_planCount w sessionId) as Hcount.
  destruct (getSession w sessionId) as [session w']. simpl in Hcount.
  destruct first as [content reasoningText details|e]; [|discriminate].
  destruct (extractExecutionText _) as [executionText|]; [|intros _; exact Hcount].
  destruct (isEmpty executionText); [intros _; exact Hcount|].
  destruct (negb _); [intros _; exact Hcount|].
  destruct (_ || _); discriminate.
Qed.

(** Two appended turns are the last two of the history; the turns before
    them are what the 200-entry cap leaves of the previous history. *)
Lemma appendHistory_pair session r1 c1 r2 c2 :
  exists dropped older,
    default [] (history session) = dropped ++ older
    /\ history (appendHistory (appendHistory session r1 c1) r2 c2)
       = Some (older ++ [{| role := r1; content := c1 |};
                         {| role := r2; content := c2 |}]).
Proof.
  unfold appendHistory. simpl.
  generalize (default [] (history session)). intros h0.
  set (e1 := {| role := r1; content := c1 |}).
  set (e2 := {| role := r2; content := c2 |}).
  destruct (200 <? length (h0 ++ [e1]))%nat eqn:H1.
  - apply Nat.ltb_lt in H1. rewrite length_app in H1. simpl in H1.
    destruct h0 as [|x [|y h0]]; [simpl in H1; lia | simpl in H1; lia |].
    exists [x; y], h0. split; [reflexivity|]. simpl.
    match goal with
    | |- context [(200 <? ?n)%nat] => destruct (Nat.ltb_spec 200 n) as [_|H2]
    end.
    + now rewrite <- app_assoc.
    + rewrite !length_app in H2. simpl in H1, H2. lia.
  - destruct (200 <? length ((h0 ++ [e1]) ++ [e2]))%nat eqn:H2.
    + apply Nat.ltb_lt in H2. rewrite !length_app in H2. simpl in H2.
      destruct h0 as [|x h0]; [simpl in H2; lia|].
      exists [x], h0. split; [reflexivity|]. simpl. now rewrite <- app_assoc.
    + exists [], h0. split; [reflexivity|]. now rewrite <- app_assoc.
Qed.

(** A plan accepted at the first attempt leaves the raw combined model text
    in the assistant turn: that text is not empty. *)
Lemma accepted_plan_text cfg w state planLength sessionId fuelNavigator
  content reasoningText details second :
  let o := callOpenRouterPlan cfg w state planLength sessionId fuelNavigator
             (ApiOk content reasoningText details) second in
  let combinedText := combineText (default EmptyString content) reasoningText in
  note (response o) = "openrouter"%string ->
  str_or combinedText "<empty>" = combinedText.
Proof.
  intros o combinedText. subst o. unfold callOpenRouterPlan.
  destruct (isEmpty (OPENROUTER_API_KEY cfg)); [discriminate|].
  destruct (_ && _); [discriminate|].
  destruct (getSession w sessionId) as [session w'].
  fold combinedText.
  destruct combinedText; [|reflexivity].
  change (extractExecutionText EmptyString) with (@None string). cbv iota.
  cbn [response]. intros Hnote. exfalso.
  destruct (requestCorrection cfg planLength second) as [r|] eqn:Hr.
  - rewrite (requestCorrection_note _ _ _ _ Hr) in Hnote. discriminate.
  - discriminate.
Qed.

(** C5 on the code.  The first answer carries the invalid token [MOVE:Z],
    the correction round answers [MOVE:D]: the plan is accepted with the
    note [openrouter-corrected], the session history has gained the summary
    turn and the assistant turn, and the plan counter still reads 0. *)
Theorem corrected_plan_leaves_counter :
  let o := callOpenRouterPlan keyConfig initialWorld testState 3 None None
             invalidAnswer correctedAnswer in
  note (response o) = "openrouter-corrected"%string
  /\ actions (response o) = [MOVE "D" "Planned action."]
  /\ (history <$> sessions (world o) !! "default"%string)
     = Some (Some
         [ {| role := user;
              content :=
                JsonSummary
                  (summarizeUserPayloadForHistory
                     (workingPayload initialWorld testState 3 None None)) |};
           {| role := assistant;
              content := Text "<execution>MOVE:Z</execution>" |} ])
  /\ planCount (world o) = planCount initialWorld.
Proof.
  intros o. split; [reflexivity|]. split; [reflexivity|]. split.
  - subst o. unfold invalidAnswer.
    rewrite (answered_call_history keyConfig initialWorld testState 3 None None
               _ _ _ correctedAnswer); [reflexivity | discriminate | simpl; lia].
  - now apply corrected_plan_uncounted.
Qed.

(** ** Scenarios *)

Example parse_three_moves :
  parseActionTokens "MOVE:D MOVE:D MOVE:R"
  = [MOVE "D" "Planned action."; MOVE "D" "Planned action.";
     MOVE "R" "Planned action."].
Proof. reflexivity. Qed.

Example invalid_direction_rejected :
  success (validateExecution "MOVE:Z" 3) = false.
Proof. reflexivity. Qed.

Example too_many_tokens_rejected :
  success (validateExecution "MOVE:D MOVE:D MOVE:R" 2) = false.
Proof. reflexivity. Qed.

Example scan_cell_coordinates :
  known (updateMemory (newSession "default") testState) !! (11, 1) = Some "o"%char
  /\ bounds (updateMemory (newSession "default") testState)
     = {| minX := 8; maxX := 13; minY := -1; maxY := 4 |}.
Proof. split; reflexivity. Qed.

Example truncated_execution_section :
  extractExecutionText "<self_reflection>ok</self_reflection><execution>MOVE:D MOVE:"
  = Some "MOVE:D MOVE:"%string.
Proof. reflexivity. Qed.

Example invalid_then_failed_correction :
  let o := callOpenRouterPlan keyConfig initialWorld testState 3 None None
             invalidAnswer (ApiError (RequestFailed "503")) in
  note (response o) = "bad-execution-format"%string
  /\ status (response o) = Some "bad_format"%string
  /\ length (actions (response o)) = 3%nat.
Proof. repeat split. Qed.

(** * Further properties *)

(** ** The action sanitizer *)

Lemma sanitizeActions_loop_take max candidates : forall out,
  sanitizeActions_loop max candidates out
  = out ++ take (max - length out) (map sanitizeOne candidates).
Proof.
  induction candidates as [|a candidates IH]; intros out; simpl.
  - rewrite take_nil. now rewrite app_nil_r.
  - destruct (Nat.leb_spec max (length out)) as [Hfull|Hroom].
    + replace (max - length out)%nat with 0%nat by lia. simpl.
      now rewrite app_nil_r.
    + replace (max - length out)%nat with (S (max - length (out ++ [sanitizeOne a])))
        by (rewrite length_app; simpl; lia).
      simpl. destruct a; simpl; rewrite IH, <- app_assoc; reflexivity.
Qed.

Lemma str_in_true s l : str_in s l = true <-> List.In s l.
Proof.
  unfold str_in. rewrite existsb_exists. split.
  - intros (x & Hin & Heq). apply String.eqb_eq in Heq. now subst.
  - intros Hin. exists s. split; [assumption | apply String.eqb_refl].
Qed.

Lemma reason_or_nonempty reason fallback :
  fallback <> EmptyString -> reason_or reason fallback <> EmptyString.
Proof. unfold reason_or. destruct reason; simpl; [auto | discriminate]. Qed.

Lemma sanitizeOne_wellTyped a : wellTyped (sanitizeOne a).
Proof.
  destruct a as [dir reason|kind reason|reason]; unfold sanitizeOne, wellTyped.
  - split; [|apply reason_or_nonempty; discriminate].
    destruct (str_in dir dirSet) eqn:H; [now apply str_in_true | simpl; auto].
  - split; [|apply reason_or_nonempty; discriminate].
    destruct (str_in kind kindSet) eqn:H; [now apply str_in_true | simpl; auto].
  - apply reason_or_nonempty; discriminate.
Qed.

Lemma sanitizeOne_fixes a : wellTyped a -> sanitizeOne a = a.
Proof.
  destruct a as [dir reason|kind reason|reason]; unfold sanitizeOne, wellTyped.
  - intros [Hin Hr]. apply str_in_true in Hin. rewrite Hin.
    destruct reason; [congruence | reflexivity].
  - intros [Hin Hr]. apply str_in_true in Hin. rewrite Hin.
    destruct reason; [congruence | reflexivity].
  - intros Hr. destruct reason; [congruence | reflexivity].
Qed.

Lemma planActions_loop_wellTyped state n : forall acc,
  Forall wellTyped acc -> Forall wellTyped (planActions_loop state n acc).
Proof.
  induction n as [|n IH]; intros acc Hacc; simpl; [assumption|].
  destruct (_ && _); [|destruct (_ && _)];
    apply IH, Forall_app; (split; [assumption|]);
    repeat constructor; simpl; auto; discriminate.
Qed.

Lemma planActions_wellTyped state planLength :
  Forall wellTyped (planActions state planLength).
Proof. apply planActions_loop_wellTyped. constructor. Qed.

Lemma planCap_range planLength : 1 <= planCap planLength <= 10.
Proof. unfold planCap. lia. Qed.

Lemma planCap_planCap planLength : planCap (planCap planLength) = planCap planLength.
Proof. pose proof (planCap_range planLength). unfold planCap at 1.
  destruct (Z.eqb_spec (planCap planLength) 0); lia. Qed.

Lemma sanitizeActions_cases candidates planLength :
  (candidates = []
   /\ sanitizeActions candidates planLength
      = planActions syntheticState (planCap planLength))
  \/ (candidates <> []
      /\ sanitizeActions candidates planLength
         = take (Z.to_nat (planCap planLength)) (map sanitizeOne candidates)).
Proof.
  unfold sanitizeActions. rewrite sanitizeActions_loop_take. simpl.
  rewrite Nat.sub_0_r.
  destruct candidates as [|a candidates].
  { left. split; [reflexivity|]. simpl. now rewrite take_nil. }
  right. split; [discriminate|].
  pose proof (planCap_range planLength).
  destruct (Z.to_nat (planCap planLength)) eqn:Hn; [lia|]. reflexivity.
Qed.

Lemma sanitizeActions_shape candidates planLength :
  1 <= Z.of_nat (length (sanitizeActions candidates planLength))
    <= clamp planLength 1 10
  /\ Forall wellTyped (sanitizeActions candidates planLength).
Proof.
  destruct (sanitizeActions_cases candidates planLength) as [[-> ->]|[Hne ->]].
  - rewrite planActions_length, <- !planCap_clamp, planCap_planCap.
    pose proof (planCap_range planLength).
    split; [lia | apply planActions_wellTyped].
  - rewrite <- planCap_clamp. pose proof (planCap_range planLength). split.
    + rewrite length_take, length_map.
      destruct candidates; [congruence|]. simpl length. lia.
    + apply Forall_take, Forall_map, Forall_forall. intros a _.
      apply sanitizeOne_wellTyped.
Qed.

Lemma sanitizeActions_wellTyped_take candidates planLength :
  candidates <> [] -> Forall wellTyped candidates ->
  sanitizeActions candidates planLength
  = take (Z.to_nat (clamp planLength 1 10)) candidates.
Proof.
  intros Hne Hall.
  destruct (sanitizeActions_cases candidates planLength) as [[-> _]|[_ ->]];
    [congruence|].
  rewrite planCap_clamp. f_equal.
  induction Hall as [|a l Ha _ IH]; [reflexivity|].
  simpl. rewrite sanitizeOne_fixes by assumption. f_equal.
  destruct l; [reflexivity | apply IH; discriminate].
Qed.

(** X1.  Whatever the candidates and the plan length, the sanitizer returns
    between 1 and [clamp planLength 1 10] actions, each with a direction
    among L, R, U, D, a kind among FUEL, CARGO, HULL, DRILL, and a non-empty
    reason. *)
Theorem sanitizeActions_well_formed (candidates : list Action) (planLength : Z) :
  1 <= Z.of_nat (length (sanitizeActions candidates planLength))
    <= clamp planLength 1 10
  /\ Forall wellTyped (sanitizeActions candidates planLength).
Proof. apply sanitizeActions_shape. Qed.

(** X2.  Candidates that are already well typed come back unchanged and in
    order, cut to the first [clamp planLength 1 10] of them. *)
Theorem sanitizeActions_keeps_well_typed (candidates : list Action) (planLength : Z) :
  candidates <> [] -> Forall wellTyped candidates ->
  sanitizeActions candidates planLength
  = take (Z.to_nat (clamp planLength 1 10)) candidates.
Proof. apply sanitizeActions_wellTyped_take. Qed.

Lemma sanitizeActions_keeps_well_typed_witness :
  sanitizeActions [MOVE "L" "go"; UPGRADE "HULL" "buy"; SURFACE_OPS "sell"] 2
  = [MOVE "L" "go"; UPGRADE "HULL" "buy"].
Proof.
  apply (sanitizeActions_keeps_well_typed
           [MOVE "L" "go"; UPGRADE "HULL" "buy"; SURFACE_OPS "sell"] 2).
  - discriminate.
  - repeat constructor; simpl; auto; discriminate.
Defined.

(** X3.  Sanitizing is idempotent: a sanitized list is a fixed point. *)
Theorem sanitizeActions_idempotent (candidates : list Action) (planLength : Z) :
  sanitizeActions (sanitizeActions candidates planLength) planLength
  = sanitizeActions candidates planLength.
Proof.
  destruct (sanitizeActions_shape candidates planLength) as [[Hlo Hhi] Hall].
  rewrite sanitizeActions_wellTyped_take.
  - apply take_ge. lia.
  - intros Hnil. rewrite Hnil in Hlo. simpl in Hlo. lia.
  - assumption.
Qed.

(** ** The protocol engine as a whole *)

Lemma requestCorrection_shape cfg planLength result r :
  requestCorrection cfg planLength result = Some r ->
  note r = "openrouter-corrected"%string
  /\ status r = None
  /\ exists candidates, actions r = sanitizeActions candidates planLength.
Proof.
  unfold requestCorrection. intros H.
  destruct result as [content reasoningText details|e]; [|discriminate].
  destruct (extractExecutionText _) as [executionText|]; [|discriminate].
  destruct (isEmpty executionText); [discriminate|].
  destruct (negb _); [discriminate|].
  destruct (_ || _); [discriminate|].
  inversion H; subst; simpl. eauto.
Qed.

(** Walks the branches of [callOpenRouterPlan]: the two silent fallbacks,
    the three ways into the correction round (each split by what the
    correction gives), the directly accepted plan and the API error; the
    parse-mismatch branch is closed on the way. *)
Ltac call_branches :=
  let Hcount := fresh "Hcount" in
  let Hok := fresh "Hok" in
  let Hbad := fresh "Hbad" in
  let Hrange := fresh "Hrange" in
  unfold runCall, callOpenRouterPlan;
  match goal with
  | |- context [getSession ?w ?sid] =>
      pose proof (getSession_planCount w sid) as Hcount
  end;
  destruct (isEmpty (OPENROUTER_API_KEY _)) eqn:Hkey;
  [ | destruct (_ && _) eqn:Hbudget;
      [ | destruct (getSession _ _) as [session w'] eqn:Hget;
          simpl in Hcount;
          match goal with
          | |- context [match ?first with ApiOk _ _ _ => _ | ApiError _ => _ end] =>
              destruct first as [content reasoningText details|err]
          end;
          [ destruct (extractExecutionText _) as [executionText|] eqn:Hext;
            [ destruct (isEmpty executionText) eqn:Hempty;
              [ | match goal with
                  | |- context [success (validateExecution ?t ?n)] =>
                      destruct (success (validateExecution t n)) eqn:Hok
                  end;
                  cbn [negb];
                  [ destruct (_ || _) eqn:Hbad;
                    [ exfalso;
                      destruct (validated_parse_length _ _ Hok) as [_ Hrange];
                      apply orb_true_iff in Hbad as [Hbad|Hbad]; lia
                    | ]
                  | ] ]
            | ]
          | ] ] ];
  cbn [response world requests];
  try match goal with
      | |- context [requestCorrection ?c ?n ?r] =>
          let Hr := fresh "Hr" in
          let corr := fresh "corr" in
          let Hcnote := fresh "Hcnote" in
          let Hcstatus := fresh "Hcstatus" in
          let Hcactions := fresh "Hcactions" in
          let candidates := fresh "candidates" in
          destruct (requestCorrection c n r) as [corr|] eqn:Hr;
          [ destruct (requestCorrection_shape _ _ _ _ Hr)
              as (Hcnote & Hcstatus & candidates & Hcactions) | ]
      end.

(** X4.  Every answer of the planner either is the API error, with status
    [api_error] and no actions, or carries between 1 and
    [clamp planLength 1 10] well-typed actions and another status. *)
Theorem response_carries_bounded_plan (cfg : Config) (w : World) (state : State)
  (planLength : Z) (sessionId : option string)
  (fuelNavigator : option FuelNavigatorPayload) (first second : ApiResult) :
  let r := response (callOpenRouterPlan cfg w state planLength sessionId
                       fuelNavigator first second) in
  (status r = Some "api_error"%string /\ actions r = []
   /\ exists err, first = ApiError err)
  \/ (status r <> Some "api_error"%string
      /\ 1 <= Z.of_nat (length (actions r)) <= clamp planLength 1 10
      /\ Forall wellTyped (actions r)).
Proof.
  intros r. subst r.
  assert (Hplan : forall note reasoning status,
             status <> Some "api_error"%string ->
             let r := fallbackResponse cfg state planLength note reasoning status in
             status <> Some "api_error"%string
             /\ 1 <= Z.of_nat (length (actions r)) <= clamp planLength 1 10
             /\ Forall wellTyped (actions r)).
  { intros n rs st Hst. simpl. split; [assumption|].
    rewrite planActions_length. unfold clamp.
    split; [lia | apply planActions_wellTyped]. }
  call_branches;
    try (left; repeat split; eauto; fail);
    right;
    try (apply Hplan; discriminate);
    try (rewrite Hcstatus, Hcactions; split; [discriminate|];
         apply sanitizeActions_shape).
  simpl. split; [discriminate|]. apply sanitizeActions_shape.
Qed.

(** X5.  With a key configured, a positive plan ceiling and a counter that
    has reached it, the planner answers with the fallback plan and the note
    [fallback-max-plans]; no request goes to the model and the module state
    is untouched. *)
Theorem spent_budget_uses_fallback (cfg : Config) (w : World) (state : State)
  (planLength : Z) (sessionId : option string)
  (fuelNavigator : option FuelNavigatorPayload) (first second : ApiResult) :
  OPENROUTER_API_KEY cfg <> EmptyString ->
  0 < MAX_PLANS_PER_SESSION cfg ->
  MAX_PLANS_PER_SESSION cfg <= planCount w ->
  let o := callOpenRouterPlan cfg w state planLength sessionId fuelNavigator
             first second in
  note (response o) = "fallback-max-plans"%string
  /\ actions (response o) = planActions state planLength
  /\ requests o = []
  /\ world o = w.
Proof.
  intros Hkey Hpos Hspent o. subst o. unfold callOpenRouterPlan.
  destruct (OPENROUTER_API_KEY cfg); [congruence|]. simpl isEmpty. cbv iota.
  replace (0 <? MAX_PLANS_PER_SESSION cfg) with true by (symmetry; lia).
  replace (MAX_PLANS_PER_SESSION cfg <=? planCount w) with true by (symmetry; lia).
  simpl. auto.
Qed.

Lemma spent_budget_uses_fallback_witness :
  note (response (callOpenRouterPlan budgetConfig spentWorld testState 3 None None
                    correctedAnswer correctedAnswer))
  = "fallback-max-plans"%string.
Proof.
  apply (spent_budget_uses_fallback budgetConfig spentWorld testState 3 None None
           correctedAnswer correctedAnswer).
  - discriminate.
  - simpl. lia.
  - simpl. lia.
Defined.

Lemma planCount_step cfg w c :
  planCount (world (runCall cfg w c))
  = planCount w
    + (if String.eqb (note (response (runCall cfg w c))) "openrouter" then 1 else 0).
Proof.
  destruct c as [state planLength sessionId fuelNavigator first second].
  unfold runCall.
  cbn [call_state call_planLength call_sessionId call_fuelNavigator
       call_first call_second].
  call_branches; cbn [fallbackResponse note planCount storeSession];
    rewrite ?Hcnote; simpl String.eqb; cbv iota; lia.
Qed.

(** X6.  A request raises the plan counter by one exactly when its answer
    carries the note [openrouter], and leaves it as it was otherwise. *)
Theorem planCount_counts_direct_plans (cfg : Config) (w : World) (state : State)
  (planLength : Z) (sessionId : option string)
  (fuelNavigator : option FuelNavigatorPayload) (first second : ApiResult) :
  let o := callOpenRouterPlan cfg w state planLength sessionId fuelNavigator
             first second in
  planCount (world o)
  = planCount w + (if String.eqb (note (response o)) "openrouter" then 1 else 0).
Proof.
  exact (planCount_step cfg w
           {| call_state := state; call_planLength := planLength;
              call_sessionId := sessionId; call_fuelNavigator := fuelNavigator;
              call_first := first; call_second := second |}).
Qed.




(** X8.  The number of requests sent to the model is fixed by the kind of
    answer: none for the two silent fallbacks, one for an API error or a
    directly accepted plan, two whenever the correction round ran. *)
Theorem requests_match_note (cfg : Config) (w : World) (state : State)
  (planLength : Z) (sessionId : option string)
  (fuelNavigator : option FuelNavigatorPayload) (first second : ApiResult) :
  let o := callOpenRouterPlan cfg w state planLength sessionId fuelNavigator
             first second in
  length (requests o) = modelCalls (note (response o)).
Proof.
  intros o. subst o.
  call_branches; cbn [fallbackResponse note]; rewrite ?Hcnote; reflexivity.
Qed.

Lemma getSession_other w sessionId key :
  key <> sessionKey sessionId ->
  sessions (snd (getSession w sessionId)) !! key = sessions w !! key.
Proof.
  intros Hne. unfold getSession.
  destruct (sessions w !! sessionKey sessionId); simpl; [reflexivity|].
  now rewrite lookup_insert_ne.
Qed.

(** X9.  A request touches no session but its own: every other key of the
    registry holds after the request what it held before. *)
Theorem other_sessions_untouched (cfg : Config) (w : World) (state : State)
  (planLength : Z) (sessionId : option string)
  (fuelNavigator : option FuelNavigatorPayload) (first second : ApiResult)
  (key : string) :
  key <> sessionKey sessionId ->
  sessions (world (callOpenRouterPlan cfg w state planLength sessionId
                     fuelNavigator first second)) !! key
  = sessions w !! key.
Proof.
  intros Hne. pose proof (getSession_other w sessionId key Hne) as Hother.
  call_branches; try reflexivity;
    simpl in Hother;
    cbn [sessions storeSession]; rewrite lookup_insert_ne by congruence;
    exact Hother.
Qed.

Lemma other_sessions_untouched_witness :
  sessions (world (callOpenRouterPlan keyConfig initialWorld testState 3
                     (Some "miner-1"%string) None correctedAnswer correctedAnswer))
    !! "default"%string
  = sessions initialWorld !! "default"%string.
Proof.
  apply other_sessions_untouched. discriminate.
Defined.

(** ** Reachable module states *)

Lemma pushVisit_length visited v :
  (length visited <= 50)%nat -> (length (pushVisit visited v) <= 50)%nat.
Proof.
  intros Hlen. unfold pushVisit.
  destruct (Nat.ltb_spec 50 (length (visited ++ [v]))) as [Hlong|Hshort].
  - rewrite length_app in Hlong. simpl in Hlong.
    destruct visited; simpl in *; [lia|]. rewrite length_app. simpl. lia.
  - assumption.
Qed.

Lemma appendHistory_length session r c :
  (length (default [] (history session)) <= 200)%nat ->
  (length (default [] (history (appendHistory session r c))) <= 200)%nat.
Proof.
  intros Hlen. unfold appendHistory. simpl.
  set (h := default [] (history session)) in *.
  destruct (Nat.ltb_spec 200 (length (h ++ [{| role := r; content := c |}])))
    as [Hlong|Hshort].
  - rewrite length_app in Hlong. simpl in Hlong.
    destruct h; simpl in *; [lia|]. rewrite length_app. simpl. lia.
  - assumption.
Qed.

Lemma updateMemory_sessionInvariant key session state :
  sessionInvariant key session -> sessionInvariant key (updateMemory session state).
Proof.
  intros (Hid & Hh & Hv & Hbox).
  split; [exact Hid|]. split; [exact Hh|]. split.
  - unfold updateMemory. simpl. now apply pushVisit_length.
  - now apply updateMemory_boxInvariant.
Qed.

Lemma updateFuelRunCount_sessionInvariant key session state :
  sessionInvariant key session ->
  sessionInvariant key (updateFuelRunCount session state).
Proof.
  unfold updateFuelRunCount.
  destruct (negb (truthy (atFuelStation state)));
    [|destruct (negb (truthy (lastAtStation session)))]; auto.
Qed.

Lemma appendHistory_sessionInvariant key session r c :
  sessionInvariant key session -> sessionInvariant key (appendHistory session r c).
Proof.
  intros (Hid & Hh & Hv & Hbox).
  split; [exact Hid|]. split; [now apply appendHistory_length|].
  split; [exact Hv | exact Hbox].
Qed.

Lemma newSession_sessionInvariant key : sessionInvariant key (newSession key).
Proof.
  split; [reflexivity|]. split; [simpl; lia|]. split; [simpl; lia|].
  apply newSession_boxInvariant.
Qed.

Lemma getSession_worldInvariant w sessionId :
  worldInvariant w ->
  sessionInvariant (sessionKey sessionId) (fst (getSession w sessionId))
  /\ worldInvariant (snd (getSession w sessionId)).
Proof.
  intros Hw. unfold getSession.
  destruct (sessions w !! sessionKey sessionId) as [s|] eqn:Hs; simpl.
  - split; [now apply Hw | assumption].
  - split; [apply newSession_sessionInvariant|].
    intros key s Hlook. simpl in Hlook.
    destruct (decide (sessionKey sessionId = key)) as [<-|Hne].
    + rewrite lookup_insert_eq in Hlook. inversion Hlook.
      apply newSession_sessionInvariant.
    + rewrite lookup_insert_ne in Hlook by assumption. now apply Hw.
Qed.

Lemma storeSession_worldInvariant w key s :
  worldInvariant w -> sessionInvariant key s ->
  worldInvariant (storeSession w key s).
Proof.
  intros Hw Hs key' s' Hlook. simpl in Hlook.
  destruct (decide (key = key')) as [<-|Hne].
  - rewrite lookup_insert_eq in Hlook. now inversion Hlook; subst.
  - rewrite lookup_insert_ne in Hlook by assumption. now apply Hw.
Qed.

Lemma runCall_worldInvariant cfg w c :
  worldInvariant w -> worldInvariant (world (runCall cfg w c)).
Proof.
  intros Hw.
  destruct c as [state planLength sessionId fuelNavigator first second].
  unfold runCall.
  cbn [call_state call_planLength call_sessionId call_fuelNavigator
       call_first call_second].
  destruct (getSession_worldInvariant w sessionId Hw) as [Hs Hw'].
  assert (Hwork : forall session,
             sessionInvariant (sessionKey sessionId) session ->
             forall r1 c1 r2 c2 w',
               worldInvariant w' ->
               worldInvariant
                 (storeSession w' (sessionKey sessionId)
                    (appendHistory
                       (appendHistory
                          (updateFuelRunCount (updateMemory session state) state)
                          r1 c1) r2 c2))).
  { intros session Hsession r1 c1 r2 c2 w' Hw''.
    apply storeSession_worldInvariant; [assumption|].
    now apply appendHistory_sessionInvariant, appendHistory_sessionInvariant,
      updateFuelRunCount_sessionInvariant, updateMemory_sessionInvariant. }
  call_branches; try assumption; simpl in Hs, Hw'; now apply Hwork.
Qed.

(** X10.  In every module state reached from start-up by a sequence of
    requests, each registered session is filed under its own id, holds at
    most 200 history turns and at most 50 visited positions, and has a
    well-formed box enclosing every known tile. *)
Theorem reachable_worlds_are_bounded (cfg : Config) (calls : list Call) :
  worldInvariant (runCalls cfg initialWorld calls).
Proof.
  assert (Hinit : worldInvariant initialWorld).
  { intros key s Hlook. simpl in Hlook. rewrite lookup_empty in Hlook.
    discriminate. }
  revert Hinit. generalize initialWorld. unfold runCalls.
  induction calls as [|c calls IH]; intros w Hw; simpl; [assumption|].
  apply IH. now apply runCall_worldInvariant.
Qed.

(** ** What the memory update records *)

Lemma cellsRow_In baseX gy row : forall rx0 g t,
  List.In (g, t) (cellsRow baseX gy rx0 row)
  <-> exists i : nat,
        String.get i row = Some t /\ g = (baseX + rx0 + Z.of_nat i, gy).
Proof.
  induction row as [|c row IH]; intros rx0 g t; simpl.
  - split; [contradiction | intros (i & H & _); destruct i; discriminate].
  - rewrite IH. split.
    + intros [Heq|(i & Hget & ->)].
      * inversion Heq; subst. exists 0%nat. split; [reflexivity|]. f_equal. lia.
      * exists (S i). split; [exact Hget|]. f_equal. lia.
    + intros ([|i] & Hget & ->).
      * left. simpl in Hget. inversion Hget; subst. f_equal. f_equal. lia.
      * right. exists i. split; [exact Hget|]. f_equal. lia.
Qed.

Lemma cellsRows_In baseX baseY rows : forall ry0 g t,
  List.In (g, t) (cellsRows baseX baseY ry0 rows)
  <-> exists (j i : nat) (row : string),
        nth_error rows j = Some row
        /\ String.get i row = Some t
        /\ g = (baseX + Z.of_nat i, baseY + ry0 + Z.of_nat j).
Proof.
  induction rows as [|row rows IH]; intros ry0 g t; simpl.
  - split; [contradiction | intros (j & i & r & H & _); destruct j; discriminate].
  - rewrite in_app_iff, cellsRow_In, IH. split.
    + intros [(i & Hget & ->)|(j & i & r & Hnth & Hget & ->)].
      * exists 0%nat, i, row. split; [reflexivity|]. split; [exact Hget|].
        f_equal; lia.
      * exists (S j), i, r. split; [exact Hnth|]. split; [exact Hget|].
        f_equal; lia.
    + intros ([|j] & i & r & Hnth & Hget & ->).
      * left. simpl in Hnth. inversion Hnth; subst. exists i.
        split; [exact Hget|]. f_equal; lia.
      * right. exists j, i, r. split; [exact Hnth|]. split; [exact Hget|].
        f_equal; lia.
Qed.

Lemma scanCells_shows state g t :
  List.In (g, t) (scanCells state) <-> scanShows state g t.
Proof.
  unfold scanCells, scanShows. rewrite cellsRows_In. split.
  - intros (j & i & row & Hnth & Hget & ->). exists j, i, row.
    split; [exact Hnth|]. split; [exact Hget|]. f_equal; lia.
  - intros (j & i & row & Hnth & Hget & ->). exists j, i, row.
    split; [exact Hnth|]. split; [exact Hget|]. f_equal; lia.
Qed.

Lemma updateMemory_fold session state :
  (known (updateMemory session state), bounds (updateMemory session state))
  = fold_left storeCell (scanCells state) (known session, bounds session).
Proof.
  unfold updateMemory, scanCells. simpl.
  now rewrite <- surjective_pairing, updateMemory_rows_cells.
Qed.

Lemma fold_storeCell_other cells : forall kb g,
  ~ List.In g (map fst cells) ->
  fst (fold_left storeCell cells kb) !! g = fst kb !! g.
Proof.
  induction cells as [|c cells IH]; intros kb g Hnotin; simpl; [reflexivity|].
  simpl in Hnotin. rewrite IH by tauto.
  destruct kb as [k b], c as [[gx gy] t]. unfold storeCell, storeTile. simpl.
  destruct (size _ =? 1)%nat; simpl; apply lookup_insert_ne; tauto.
Qed.

Lemma updateMemory_lookup_scan session state g t :
  scanShows state g t -> known (updateMemory session state) !! g = Some t.
Proof.
  intros Hshow. apply scanCells_shows in Hshow.
  change (known (updateMemory session state))
    with (fst (known (updateMemory session state), bounds (updateMemory session state))).
  rewrite updateMemory_fold.
  apply (fold_storeCell_settles (scanCells state)
           (cellsRows_NoDup _ _ _ _) _ (g, t) Hshow).
Qed.

Lemma updateMemory_lookup_other session state g :
  (forall t, ~ scanShows state g t) ->
  known (updateMemory session state) !! g = known session !! g.
Proof.
  intros Hno.
  change (known (updateMemory session state))
    with (fst (known (updateMemory session state), bounds (updateMemory session state))).
  rewrite updateMemory_fold. rewrite fold_storeCell_other; [reflexivity|].
  intros Hin. apply in_map_iff in Hin as ([g' t] & Heq & Hin). simpl in Heq.
  subst g'. apply scanCells_shows in Hin. exact (Hno t Hin).
Qed.

(** X11.  After a memory update the known map holds, at the absolute
    coordinate of every cell of the local scan (player at scan offset
    (2,2)), the tile the scan shows there. *)
Theorem updateMemory_records_scan (session : SessionMemory) (state : State)
  (ry rx : nat) (row : string) (t : ascii) :
  nth_error (localScan state) ry = Some row ->
  String.get rx row = Some t ->
  known (updateMemory session state)
    !! (pos_x (pos state) - 2 + Z.of_nat rx, pos_y (pos state) - 2 + Z.of_nat ry)
  = Some t.
Proof.
  intros Hrow Hget. apply updateMemory_lookup_scan.
  exists ry, rx, row. auto.
Qed.

Lemma updateMemory_records_scan_witness :
  known (updateMemory (newSession "default") testState) !! (10 - 2 + 3, 1 - 2 + 2)
  = Some "o"%char.
Proof.
  apply (updateMemory_records_scan (newSession "default") testState 2 3 "..do..");
    reflexivity.
Defined.

(** X12.  A memory update changes the known map nowhere but at the
    coordinates of the scan cells: elsewhere every tile, known or unknown,
    stays as it was. *)
Theorem updateMemory_keeps_other_tiles (session : SessionMemory) (state : State)
  (g : Z * Z) :
  (forall t, ~ scanShows state g t) ->
  known (updateMemory session state) !! g = known session !! g.
Proof. apply updateMemory_lookup_other. Qed.

Lemma updateMemory_keeps_other_tiles_witness :
  known (updateMemory (newSession "default") testState) !! (100, 100)
  = known (newSession "default") !! (100, 100).
Proof.
  apply updateMemory_keeps_other_tiles.
  intros t (ry & rx & row & Hrow & Hget & Heq).
  inversion Heq as [[Hx Hy]].
  assert (Hlen : (ry < length (localScan testState))%nat).
  { apply nth_error_Some. rewrite Hrow. discriminate. }
  simpl in Hy, Hlen. lia.
Defined.

Lemma fold_storeCell_known_grows cells : forall kb g,
  is_Some (fst kb !! g) -> is_Some (fst (fold_left storeCell cells kb) !! g).
Proof.
  induction cells as [|c cells IH]; intros kb g Hg; simpl; [assumption|].
  apply IH. destruct kb as [k b], c as [[gx gy] t].
  unfold storeCell, storeTile. simpl in *.
  destruct (size _ =? 1)%nat; simpl;
    (destruct (decide ((gx, gy) = g)) as [<-|Hne];
     [rewrite lookup_insert_eq; eauto | now rewrite lookup_insert_ne]).
Qed.

Lemma fold_updateMemory_known_grows states : forall session g,
  is_Some (known session !! g) ->
  is_Some (known (fold_left updateMemory states session) !! g).
Proof.
  induction states as [|state states IH]; intros session g Hg; simpl; [assumption|].
  apply IH.
  change (known (updateMemory session state))
    with (fst (known (updateMemory session state), bounds (updateMemory session state))).
  rewrite updateMemory_fold. now apply fold_storeCell_known_grows.
Qed.

(** X13.  The known map never forgets: a coordinate known to a session is
    still known after any sequence of memory updates. *)
Theorem known_tiles_persist (session : SessionMemory) (states : list State)
  (g : Z * Z) :
  g ∈ dom (known session) ->
  g ∈ dom (known (fold_left updateMemory states session)).
Proof.
  rewrite !elem_of_dom. apply fold_updateMemory_known_grows.
Qed.

Lemma known_tiles_persist_witness :
  (11, 1) ∈ dom (known (fold_left updateMemory [belowSurfaceState]
                          (updateMemory (newSession "default") testState))).
Proof.
  apply known_tiles_persist. apply elem_of_dom. exists "o"%char. reflexivity.
Defined.

(** ** The box is the exact bounding box *)

Lemma storeTile_boxTight kb gx gy t : boxTight kb -> boxTight (storeTile kb gx gy t).
Proof.
  destruct kb as [k b]. unfold boxTight, storeTile. simpl. intros Htight.
  assert (Hnew : is_Some (<[(gx, gy):=t]> k !! (gx, gy))).
  { rewrite lookup_insert_eq. eauto. }
  destruct (Nat.eqb_spec (size (<[(gx, gy):=t]> k)) 1) as [Hone|Hmany]; simpl.
  - right. repeat split; exists (gx, gy); auto.
  - right. destruct Htight as [->|(Hx0 & Hx1 & Hy0 & Hy1)].
    { exfalso. apply Hmany.
      rewrite map_size_insert_None by apply lookup_empty.
      now rewrite map_size_empty. }
    assert (Hold : forall g, is_Some (k !! g) -> is_Some (<[(gx, gy):=t]> k !! g)).
    { intros g Hg. destruct (decide ((gx, gy) = g)) as [<-|Hne]; [assumption|].
      now rewrite lookup_insert_ne. }
    destruct Hx0 as (g0 & Hg0 & Hm0), Hx1 as (g1 & Hg1 & Hm1),
             Hy0 as (g2 & Hg2 & Hm2), Hy1 as (g3 & Hg3 & Hm3).
    repeat split.
    + destruct (Z.min_spec (minX b) gx) as [[_ ->]|[_ ->]];
        [exists g0 | exists (gx, gy)]; auto.
    + destruct (Z.max_spec (maxX b) gx) as [[_ ->]|[_ ->]];
        [exists (gx, gy) | exists g1]; auto.
    + destruct (Z.min_spec (minY b) gy) as [[_ ->]|[_ ->]];
        [exists g2 | exists (gx, gy)]; auto.
    + destruct (Z.max_spec (maxY b) gy) as [[_ ->]|[_ ->]];
        [exists (gx, gy) | exists g3]; auto.
Qed.

Lemma fold_storeCell_boxTight cells : forall kb,
  boxTight kb -> boxTight (fold_left storeCell cells kb).
Proof.
  induction cells as [|c cells IH]; intros kb Hkb; simpl; [assumption|].
  apply IH. now apply storeTile_boxTight.
Qed.

Lemma fold_updateMemory_boxTight states : forall session,
  boxTight (known session, bounds session) ->
  boxTight (known (fold_left updateMemory states session),
            bounds (fold_left updateMemory states session)).
Proof.
  induction states as [|state states IH]; intros session Hs; simpl; [assumption|].
  apply IH. rewrite updateMemory_fold. now apply fold_storeCell_boxTight.
Qed.

(** X14.  After any sequence of memory updates applied to a fresh session
    that left something known, each side of the box passes through a known
    coordinate: with the enclosure of C6, the box is the exact bounding box
    of the known tiles. *)
Theorem bounds_are_tight (id : string) (states : list State) :
  let session := fold_left updateMemory states (newSession id) in
  known session <> ∅ ->
  (exists gy, (minX (bounds session), gy) ∈ dom (known session))
  /\ (exists gy, (maxX (bounds session), gy) ∈ dom (known session))
  /\ (exists gx, (gx, minY (bounds session)) ∈ dom (known session))
  /\ (exists gx, (gx, maxY (bounds session)) ∈ dom (known session)).
Proof.
  intros session Hne.
  destruct (fold_updateMemory_boxTight states (newSession id)) as [Hempty|Htight].
  { left. reflexivity. }
  { contradiction. }
  fold session in Htight. simpl in Htight.
  destruct Htight as ((g0 & Hg0 & Hm0) & (g1 & Hg1 & Hm1)
                      & (g2 & Hg2 & Hm2) & (g3 & Hg3 & Hm3)).
  repeat split.
  - exists (snd g0). rewrite <- Hm0, <- surjective_pairing. now apply elem_of_dom.
  - exists (snd g1). rewrite <- Hm1, <- surjective_pairing. now apply elem_of_dom.
  - exists (fst g2). rewrite <- Hm2, <- surjective_pairing. now apply elem_of_dom.
  - exists (fst g3). rewrite <- Hm3, <- surjective_pairing. now apply elem_of_dom.
Qed.

Lemma bounds_are_tight_witness :
  exists gy,
    (minX (bounds (fold_left updateMemory [testState] (newSession "default"))), gy)
    ∈ dom (known (fold_left updateMemory [testState] (newSession "default"))).
Proof.
  apply (bounds_are_tight "default" [testState]).
  intros Hempty.
  assert (Hl : known (fold_left updateMemory [testState] (newSession "default"))
               !! (11, 1) = Some "o"%char) by reflexivity.
  rewrite Hempty, lookup_empty in Hl. discriminate.
Defined.

(** ** The views sent to the model *)

Lemma get_string_of_list_ascii l : forall i,
  String.get i (string_of_list_ascii l) = nth_error l i.
Proof.
  induction l as [|c l IH]; intros [|i]; simpl; auto.
Qed.

Lemma nth_error_is_lookup {A} (l : list A) : forall i, nth_error l i = l !! i.
Proof. induction l as [|x l IH]; intros [|i]; simpl; auto. Qed.

Lemma nth_error_seqZ (n i : nat) :
  (i < n)%nat -> nth_error (seqZ 0 (Z.of_nat n)) i = Some (Z.of_nat i).
Proof.
  intros Hlt. rewrite nth_error_is_lookup.
  apply lookup_seqZ. split; lia.
Qed.

Lemma buildMemoryWindow_cell session state (size x y : nat) :
  (x < size)%nat -> (y < size)%nat ->
  exists wrow,
    nth_error (buildMemoryWindow session state size) y = Some wrow
    /\ String.get x wrow
       = Some (default "?"%char
                 (known session
                    !! (pos_x (pos state) - Z.of_nat size / 2 + Z.of_nat x,
                        pos_y (pos state) - Z.of_nat size / 2 + Z.of_nat y))).
Proof.
  intros Hx Hy. unfold buildMemoryWindow.
  rewrite nth_error_map, (nth_error_seqZ size y Hy). simpl.
  eexists. split; [reflexivity|].
  rewrite get_string_of_list_ascii, nth_error_map, (nth_error_seqZ size x Hx).
  reflexivity.
Qed.

(** X15.  The 12 x 12 memory window built after a memory update shows the
    local scan: the tile at column [rx], row [ry] of the scan stands at
    column [rx + 4], row [ry + 4] of the window (the window is centred 6
    cells before the player, the scan 2). *)
Theorem memory_window_shows_scan (session : SessionMemory) (state : State)
  (ry rx : nat) (row : string) (t : ascii) :
  nth_error (localScan state) ry = Some row ->
  String.get rx row = Some t ->
  (rx < 8)%nat -> (ry < 8)%nat ->
  exists wrow,
    nth_error (buildMemoryWindow (updateMemory session state) state 12) (ry + 4)
    = Some wrow
    /\ String.get (rx + 4) wrow = Some t.
Proof.
  intros Hrow Hget Hrx Hry.
  destruct (buildMemoryWindow_cell (updateMemory session state) state 12
              (rx + 4) (ry + 4)) as (wrow & Hw & Hc); [lia | lia |].
  exists wrow. split; [exact Hw|]. rewrite Hc.
  rewrite (updateMemory_lookup_scan session state _ t); [reflexivity|].
  exists ry, rx, row. split; [exact Hrow|]. split; [exact Hget|].
  f_equal; change (Z.of_nat 12 / 2) with 6; lia.
Qed.

Lemma memory_window_shows_scan_witness :
  exists wrow,
    nth_error (buildMemoryWindow (updateMemory (newSession "default") testState)
                 testState 12) (2 + 4)
    = Some wrow
    /\ String.get (3 + 4) wrow = Some "o"%char.
Proof.
  apply (memory_window_shows_scan (newSession "default") testState 2 3 "..do..");
    [reflexivity | reflexivity | lia | lia].
Defined.

Lemma buildScanTiles_row_cells baseX gy row : forall rx tiles,
  buildScanTiles_row baseX gy rx row tiles
  = tiles ++ map cellTile (List.filter notDot (cellsRow baseX gy rx row)).
Proof.
  induction row as [|t row IH]; intros rx tiles; simpl.
  - now rewrite app_nil_r.
  - rewrite IH. unfold notDot at 2. simpl.
    destruct (Ascii.eqb t dot); simpl; [reflexivity|].
    now rewrite <- app_assoc.
Qed.

Lemma buildScanTiles_rows_cells baseX baseY rows : forall ry tiles,
  buildScanTiles_rows baseX baseY ry rows tiles
  = tiles ++ map cellTile (List.filter notDot (cellsRows baseX baseY ry rows)).
Proof.
  induction rows as [|row rows IH]; intros ry tiles; simpl.
  - now rewrite app_nil_r.
  - rewrite IH, buildScanTiles_row_cells, List.filter_app, map_app.
    now rewrite <- app_assoc.
Qed.

Lemma buildScanTiles_cells state :
  buildScanTiles state = map cellTile (List.filter notDot (scanCells state)).
Proof. unfold buildScanTiles. now rewrite buildScanTiles_rows_cells. Qed.

Lemma buildScanTiles_In state tl :
  List.In tl (buildScanTiles state)
  <-> scanShows state (tile_x tl, tile_y tl) (tile_t tl) /\ tile_t tl <> dot.
Proof.
  rewrite buildScanTiles_cells, in_map_iff. split.
  - intros ([g t] & <- & Hin). apply List.filter_In in Hin as [Hin Hnd].
    simpl. rewrite <- surjective_pairing. split; [now apply scanCells_shows|].
    unfold notDot in Hnd. simpl in Hnd. apply negb_true_iff in Hnd.
    now apply Ascii.eqb_neq.
  - intros [Hshow Hnd]. exists ((tile_x tl, tile_y tl), tile_t tl). split.
    + now destruct tl.
    + apply List.filter_In. split; [now apply scanCells_shows|].
      unfold notDot. simpl. apply negb_true_iff. now apply Ascii.eqb_neq.
Qed.

(** X16.  The scan tiles of the payload are exactly the cells of the local
    scan that do not show ["."], each at its absolute coordinate; and each
    of them is known, with that tile, once the memory is updated. *)
Theorem scanTiles_are_the_marked_cells (state : State) (tl : Tile) :
  (List.In tl (buildScanTiles state)
   <-> scanShows state (tile_x tl, tile_y tl) (tile_t tl) /\ tile_t tl <> dot)
  /\ (List.In tl (buildScanTiles state) ->
      forall session,
        known (updateMemory session state) !! (tile_x tl, tile_y tl)
        = Some (tile_t tl)).
Proof.
  split; [apply buildScanTiles_In|].
  intros Hin session. apply buildScanTiles_In in Hin as [Hshow _].
  now apply updateMemory_lookup_scan.
Qed.

Lemma scanTiles_are_the_marked_cells_witness :
  known (updateMemory (newSession "default") testState) !! (11, 1) = Some "o"%char.
Proof.
  apply (proj2 (scanTiles_are_the_marked_cells testState
                  {| tile_x := 11; tile_y := 1; tile_t := "o" |})).
  simpl. auto 10.
Defined.

(** ** The return hints *)

Lemma floorDiv_nonneg a b : (0 <= a)%Q -> (0 < b)%Q -> 0 <= floorDiv a b.
Proof.
  intros Ha Hb. unfold floorDiv.
  change 0 with (Qfloor 0). apply Qfloor_resp_le.
  apply Qle_shift_div_l; [assumption|]. now rewrite Qmult_0_l.
Qed.

Lemma floorDiv_antitone a b1 b2 :
  (0 <= a)%Q -> (0 < b1)%Q -> (b1 <= b2)%Q -> floorDiv a b2 <= floorDiv a b1.
Proof.
  intros Ha Hb1 Hb. unfold floorDiv. apply Qfloor_resp_le.
  assert (Hb2 : (0 < b2)%Q) by (eapply Qlt_le_trans; eauto).
  apply Qle_shift_div_r; [assumption|].
  assert (Hq : (0 <= a / b1)%Q).
  { apply Qle_shift_div_l; [assumption|]. now rewrite Qmult_0_l. }
  assert (Heq : (a == a / b1 * b1)%Q).
  { field. intros H0. rewrite H0 in Hb1. now apply Qlt_irrefl in Hb1. }
  rewrite Heq at 1. rewrite (Qmult_comm (a / b1) b1), (Qmult_comm (a / b1) b2).
  now apply Qmult_le_compat_r.
Qed.

Lemma floorDiv_le_self a b : (0 <= a)%Q -> (1 <= b)%Q -> (inject_Z (floorDiv a b) <= a)%Q.
Proof.
  intros Ha Hb. unfold floorDiv.
  apply Qle_trans with (a / b)%Q; [apply Qfloor_le|].
  assert (Hb0 : (0 < b)%Q) by (eapply Qlt_le_trans; [|exact Hb]; reflexivity).
  apply Qle_shift_div_r; [assumption|].
  rewrite <- (Qmult_1_r a) at 1.
  rewrite (Qmult_comm a 1), (Qmult_comm a b). now apply Qmult_le_compat_r.
Qed.

Lemma Qmax_1_pos q : (0 < Qmax 1 q)%Q.
Proof. eapply Qlt_le_trans; [|apply Q.le_max_l]. reflexivity. Qed.

Lemma Qmax_1_mono p q : (p <= q)%Q -> (Qmax 1 p <= Qmax 1 q)%Q.
Proof. intros H. now apply Q.max_le_compat_l. Qed.

(** X17.  With fuel at hand that is not negative, a dirt dig cost that is
    not negative and a lava dig cost at least as high, the turns-left
    projections of the fuel hint are ordered by the cost they assume,
    worst <= dig <= air <= max and up <= air; none is negative and none
    exceeds the fuel at hand. *)
Theorem fuelHint_projections_ordered (state : State) :
  (0 <= fuel_cur (fuel state))%Q ->
  (0 <= ruleDigFuel state)%Q ->
  (ruleDigFuel state <= ruleLavaDigFuel state)%Q ->
  let h := buildFuelHint state in
  0 <= turnsLeftWorst h
  /\ turnsLeftWorst h <= turnsLeftDig h
  /\ turnsLeftDig h <= turnsLeftAir h
  /\ turnsLeftAir h <= turnsLeftMax h
  /\ 0 <= turnsLeftUp h
  /\ turnsLeftUp h <= turnsLeftAir h
  /\ turnsLeftProbable h = turnsLeftDig h
  /\ (inject_Z (turnsLeftMax h) <= fuel_cur (fuel state))%Q.
Proof.
  intros Hfuel Hdig Hlava h. subst h. unfold buildFuelHint. simpl.
  set (b := ruleBaseTurnFuel state). set (d := ruleDigFuel state) in *.
  set (l := ruleLavaDigFuel state) in *. set (f := fuel_cur (fuel state)) in *.
  unfold upThrustFuel, airMoveFuel.
  repeat split.
  - apply floorDiv_nonneg; [assumption | apply Qmax_1_pos].
  - apply floorDiv_antitone; [assumption | apply Qmax_1_pos |].
    apply Qmax_1_mono. apply Qplus_le_l. now apply Qplus_le_r.
  - apply floorDiv_antitone; [assumption | apply Qmax_1_pos |].
    apply Qmax_1_mono. rewrite <- Qplus_assoc. apply Qplus_le_r.
    apply Qle_trans with (0 + 1)%Q; [discriminate|]. now apply Qplus_le_l.
  - apply floorDiv_antitone; [assumption | apply Qmax_1_pos |].
    apply Qmax_1_mono. rewrite <- (Qplus_0_r b) at 1. apply Qplus_le_r. discriminate.
  - apply floorDiv_nonneg; [assumption | apply Qmax_1_pos].
  - apply floorDiv_antitone; [assumption | apply Qmax_1_pos |].
    apply Qmax_1_mono. apply Qplus_le_r. discriminate.
  - apply floorDiv_le_self; [assumption | apply Q.le_max_l].
Qed.

Lemma fuelHint_projections_ordered_witness :
  turnsLeftDig (buildFuelHint testState) <= turnsLeftAir (buildFuelHint testState).
Proof.
  destruct (fuelHint_projections_ordered testState) as (_ & _ & H & _);
    [discriminate | discriminate | discriminate | exact H].
Defined.

Lemma return_estimate_zero (dy dx : Z) (v h : Q) :
  0 <= dy -> 0 <= dx -> (0 < v)%Q -> (0 < h)%Q ->
  (0 <= inject_Z dy * v + inject_Z dx * h)%Q
  /\ ((inject_Z dy * v + inject_Z dx * h == 0)%Q <-> dy = 0 /\ dx = 0).
Proof.
  intros Hdy Hdx Hv Hh.
  assert (Hy : (0 <= inject_Z dy)%Q) by (unfold Qle; simpl; lia).
  assert (Hx : (0 <= inject_Z dx)%Q) by (unfold Qle; simpl; lia).
  assert (HA : (0 <= inject_Z dy * v)%Q)
    by (apply Qmult_le_0_compat; [assumption | now apply Qlt_le_weak]).
  assert (HB : (0 <= inject_Z dx * h)%Q)
    by (apply Qmult_le_0_compat; [assumption | now apply Qlt_le_weak]).
  assert (Hzero : forall (n : Z) (q : Q),
             (0 < q)%Q -> (inject_Z n * q == 0)%Q -> n = 0).
  { intros n q Hq H0. apply Qmult_integral in H0 as [H0|H0].
    - unfold Qeq in H0. simpl in H0. lia.
    - rewrite H0 in Hq. now apply Qlt_irrefl in Hq. }
  split.
  - rewrite <- (Qplus_0_r 0). now apply Qplus_le_compat.
  - split.
    + intros H0. split.
      * apply (Hzero dy v Hv). apply Qle_antisym; [|assumption].
        rewrite <- H0. rewrite <- (Qplus_0_r (inject_Z dy * v)) at 1.
        now apply Qplus_le_r.
      * apply (Hzero dx h Hh). apply Qle_antisym; [|assumption].
        rewrite <- H0. rewrite <- (Qplus_0_l (inject_Z dx * h)) at 1.
        now apply Qplus_le_l.
    + intros [-> ->]. ring.
Qed.

Lemma horizontalCost_pos (b d : Q) (below : bool) :
  (0 <= b)%Q -> (0 <= d)%Q ->
  (0 < b + (if below then d + 1 else airMoveFuel))%Q.
Proof.
  intros Hb Hd. destruct below.
  - apply Qlt_le_trans with (0 + (0 + 1))%Q; [reflexivity|].
    apply Qplus_le_compat; [assumption|]. now apply Qplus_le_l.
  - apply Qlt_le_trans with (0 + airMoveFuel)%Q; [reflexivity|].
    now apply Qplus_le_l.
Qed.

Lemma verticalCost_pos (b : Q) : (0 <= b)%Q -> (0 < b + upThrustFuel)%Q.
Proof.
  intros Hb. apply Qlt_le_trans with (0 + upThrustFuel)%Q; [reflexivity|].
  now apply Qplus_le_l.
Qed.

(** X18.  With a base turn cost and a dirt dig cost that are not negative,
    the return estimates of the fuel hint and of the shop hint are never
    negative, and each is zero exactly when the player stands in the
    station's column at or above the surface row ([pos.y <= 1]); so on
    arrival the fuel hint asks to return only when at most 8 units are
    left. *)
Theorem return_estimates_vanish_at_station (state : State) :
  (0 <= ruleBaseTurnFuel state)%Q ->
  (0 <= ruleDigFuel state)%Q ->
  let fh := buildFuelHint state in
  let sh := buildShopHint state in
  (0 <= estReturnFuel fh)%Q
  /\ ((estReturnFuel fh == 0)%Q
      <-> pos_x (pos state) = stationX fh /\ pos_y (pos state) <= 1)
  /\ (0 <= shop_estReturnFuel sh)%Q
  /\ ((shop_estReturnFuel sh == 0)%Q
      <-> pos_x (pos state) = shopX sh /\ pos_y (pos state) <= 1)
  /\ ((estReturnFuel fh == 0)%Q ->
      (shouldReturn fh = true <-> (fuel_cur (fuel state) <= 8)%Q)).
Proof.
  intros Hb Hd fh sh.
  pose proof (verticalCost_pos _ Hb) as Hv.
  pose proof (horizontalCost_pos _ _ (1 <? pos_y (pos state)) Hb Hd) as Hh.
  destruct (return_estimate_zero
              (Z.max 0 (pos_y (pos state) - 1))
              (Z.abs (pos_x (pos state) - stationX fh)) _ _
              ltac:(lia) ltac:(lia) Hv Hh) as [Hf0 Hfz].
  destruct (return_estimate_zero
              (Z.max 0 (pos_y (pos state) - 1))
              (Z.abs (pos_x (pos state) - shopX sh)) _ _
              ltac:(lia) ltac:(lia) Hv Hh) as [Hs0 Hsz].
  split; [exact Hf0|]. split.
  { etransitivity; [exact Hfz|]. lia. }
  split; [exact Hs0|]. split.
  { etransitivity; [exact Hsz|]. lia. }
  intros Hz. etransitivity; [apply buildFuelHint_shouldReturn|].
  fold fh. rewrite Hz, Qplus_0_l. reflexivity.
Qed.

Lemma return_estimates_vanish_at_station_witness :
  (0 <= estReturnFuel (buildFuelHint testState))%Q.
Proof.
  destruct (return_estimates_vanish_at_station testState) as (H & _);
    [discriminate | discriminate | exact H].
Defined.

(** ** Behaviour diagnostics *)

Lemma posEqb_eq p q : posEqb p q = true <-> p = q.
Proof.
  destruct p as [a b], q as [c d]. unfold posEqb. simpl.
  rewrite andb_true_iff, !Z.eqb_eq. split; [intros [-> ->]; reflexivity|].
  intros H; inversion H; auto.
Qed.

Lemma existsb_posEqb p l : existsb (posEqb p) l = true <-> List.In p l.
Proof.
  rewrite existsb_exists. split.
  - intros (q & Hin & Heq). apply posEqb_eq in Heq. now subst.
  - intros Hin. exists p. split; [assumption | now apply posEqb_eq].
Qed.

Lemma uniquePositions_fold l : forall acc,
  List.NoDup acc ->
  let r := fold_left
             (fun acc p => if existsb (posEqb p) acc then acc else acc ++ [p]) l acc in
  List.NoDup r /\ (forall p, List.In p r <-> List.In p acc \/ List.In p l).
Proof.
  induction l as [|q l IH]; intros acc Hnd; simpl.
  - split; [assumption | tauto].
  - destruct (existsb (posEqb q) acc) eqn:Hq.
    + apply existsb_posEqb in Hq.
      destruct (IH acc Hnd) as [Hr Hin]. split; [exact Hr|].
      intros p. rewrite Hin. intuition (subst; auto).
    + assert (Hfresh : ~ List.In q acc).
      { intros Hin. apply existsb_posEqb in Hin. congruence. }
      assert (Hnd' : List.NoDup (acc ++ [q])).
      { apply List.NoDup_app; [assumption | repeat constructor; auto |].
        intros x Hx [<-|[]]. contradiction. }
      destruct (IH (acc ++ [q]) Hnd') as [Hr Hin]. split; [exact Hr|].
      intros p. rewrite Hin, in_app_iff. simpl. tauto.
Qed.

Lemma uniquePositions_spec l :
  List.NoDup (uniquePositions l)
  /\ forall p, List.In p (uniquePositions l) <-> List.In p l.
Proof.
  destruct (uniquePositions_fold l [] (List.NoDup_nil _)) as [Hnd Hin].
  split; [exact Hnd|]. intros p. rewrite (Hin p). simpl. tauto.
Qed.

Lemma lastN_length {A} n (l : list A) : length (lastN n l) = Nat.min n (length l).
Proof. unfold lastN. rewrite length_skipn. lia. Qed.

(** X19.  The behaviour diagnostics answer nothing when fewer than 3
    positions were visited.  Otherwise, over the last 8 visited positions:
    [stuck] is set exactly when they are all the same position;
    [oscillating] is set exactly when they are two distinct positions that
    both recur, which it then names; the two notes never come together. *)
Theorem analyzeBehavior_diagnoses (session : SessionMemory) (state : State) :
  (analyzeBehavior session state = None <-> (length (visited session) < 3)%nat)
  /\ forall b,
       analyzeBehavior session state = Some b ->
       (is_Some (stuck b)
        <-> forall p q, List.In p (behaviorWindow session) ->
                        List.In q (behaviorWindow session) -> p = q)
       /\ (forall a c n,
              oscillating b = Some (a, c, n) ->
              a <> c
              /\ List.In a (behaviorWindow session)
              /\ List.In c (behaviorWindow session)
              /\ forall p, List.In p (behaviorWindow session) -> p = a \/ p = c)
       /\ ((exists a c, a <> c
                        /\ List.In a (behaviorWindow session)
                        /\ List.In c (behaviorWindow session)
                        /\ forall p, List.In p (behaviorWindow session) ->
                                     p = a \/ p = c)
           -> is_Some (oscillating b))
       /\ ~ (is_Some (stuck b) /\ is_Some (oscillating b)).
Proof.
  unfold analyzeBehavior. fold (behaviorWindow session).
  destruct (Nat.ltb_spec (length (lastN 8 (visited session))) 3) as [Hshort|Hlong];
    rewrite lastN_length in *.
  { split; [split; [intros _; lia | reflexivity]|]. discriminate. }
  split; [split; [discriminate | intros; lia]|].
  intros b Hb. inversion Hb; subst b; clear Hb. simpl.
  destruct (uniquePositions_spec (behaviorWindow session)) as [Hnd Hin].
  assert (Hwin : behaviorWindow session <> []).
  { unfold behaviorWindow. intros Hnil. apply (f_equal (@length _)) in Hnil.
    rewrite length_map, lastN_length in Hnil. cbn [length] in Hnil. lia. }
  destruct (uniquePositions (behaviorWindow session)) as [|a [|c [|e rest]]] eqn:Hu.
  - exfalso. destruct (behaviorWindow session) as [|p l]; [congruence|].
    apply (Hin p). now left.
  - split; [|split; [discriminate|split]].
    + split; [|eauto]. intros _ p q Hp Hq.
      apply Hin in Hp as [<-|[]]. apply Hin in Hq as [<-|[]]. reflexivity.
    + intros (x & y & Hne & Hx & Hy & _).
      apply Hin in Hx as [<-|[]]. apply Hin in Hy as [<-|[]]. congruence.
    + intros [_ [x Hx]]. discriminate.
  - assert (Hac : a <> c).
    { inversion Hnd as [|? ? Hna _]; subst. intros ->. apply Hna. now left. }
    split; [|split; [|split]].
    + split; [intros [x Hx]; discriminate|].
      intros Hall. exfalso. apply Hac. apply Hall; apply Hin; simpl; auto.
    + intros a' c' n Heq. inversion Heq; subst. split; [assumption|].
      split; [apply Hin; simpl; auto|]. split; [apply Hin; simpl; auto|].
      intros p Hp. apply Hin in Hp as [<-|[<-|[]]]; auto.
    + eauto.
    + intros [[x Hx] _]. discriminate.
  - split; [|split; [discriminate|split]].
    + split; [intros [x Hx]; discriminate|].
      intros Hall. exfalso.
      inversion Hnd as [|? ? Hna _]; subst. apply Hna.
      left. apply Hall; apply Hin; simpl; auto.
    + intros (x & y & Hne & Hx & Hy & Hall). exfalso.
      inversion Hnd as [|? ? Hna Hnd']; subst.
      inversion Hnd' as [|? ? Hnc Hnd'']; subst.
      assert (Ha : a = x \/ a = y) by (apply Hall, Hin; simpl; auto).
      assert (Hc : c = x \/ c = y) by (apply Hall, Hin; simpl; auto).
      assert (He : e = x \/ e = y) by (apply Hall, Hin; simpl; auto).
      simpl in Hna, Hnc.
      destruct Ha, Hc, He; subst; tauto.
    + intros [[x Hx] _]. discriminate.
Qed.

Lemma analyzeBehavior_diagnoses_witness :
  exists b, analyzeBehavior idleSession testState = Some b /\ is_Some (stuck b).
Proof.
  eexists. split; [reflexivity|].
  apply (proj1 (proj2 (analyzeBehavior_diagnoses idleSession testState) _ eq_refl)).
  intros p q Hp Hq. simpl in Hp, Hq.
  destruct Hp as [<-|[<-|[<-|[]]]], Hq as [<-|[<-|[<-|[]]]]; reflexivity.
Defined.

(** ** Blocked directions *)

Lemma isBlocked_solid t : isBlocked t = true <-> solid t.
Proof.
  unfold isBlocked, solid. destruct t as [c|].
  - rewrite orb_true_iff, !Ascii.eqb_eq. split; intros [H|H]; subst; auto;
      inversion H; auto.
  - split; [discriminate | intros [H|H]; discriminate].
Qed.

Lemma In_if_singleton (b : bool) (x d : string) :
  List.In d (if b then [x] else []) <-> b = true /\ d = x.
Proof. destruct b; simpl; split; intuition congruence. Qed.

(** X20.  A scan of fewer than 3 rows reports no blocked direction at all.
    Otherwise the report lists U, D, L or R exactly when the scan cell
    above, below, left or right of the player (who stands at column 2,
    row 2) shows rock [r] or surface [S]; and the report is never an empty
    list: with nothing blocked it is absent. *)
Theorem blockedDirs_lists_solid_neighbours (state : State) :
  ((length (localScan state) < 3)%nat -> blockedDirsFromScan state = None)
  /\ ((3 <= length (localScan state))%nat ->
      forall d : string,
        List.In d (default [] (blockedDirsFromScan state))
        <-> (d = "U"%string /\ solid (tileAt state 2 1))
            \/ (d = "D"%string /\ solid (tileAt state 2 3))
            \/ (d = "L"%string /\ solid (tileAt state 1 2))
            \/ (d = "R"%string /\ solid (tileAt state 3 2)))
  /\ blockedDirsFromScan state <> Some [].
Proof.
  unfold blockedDirsFromScan.
  destruct (Nat.ltb_spec (length (localScan state)) 3) as [Hshort|Hlong].
  { split; [reflexivity|]. split; [lia | discriminate]. }
  split; [lia|].
  change (Z.to_nat (2 + -1)) with 1%nat. change (Z.to_nat (2 + 1)) with 3%nat.
  change (Z.to_nat (2 + 0)) with 2%nat.
  fold (tileAt state 2 1). fold (tileAt state 2 3).
  fold (tileAt state 1 2). fold (tileAt state 3 2).
  set (blocked := _ ++ _ ++ _ ++ _).
  assert (Hdef : default [] (match blocked with [] => None | _ :: _ => Some blocked end)
                 = blocked) by (destruct blocked; reflexivity).
  split.
  - intros _ d. rewrite Hdef. subst blocked.
    rewrite !in_app_iff, !In_if_singleton, !isBlocked_solid. tauto.
  - destruct blocked; discriminate.
Qed.

Lemma blockedDirs_lists_solid_neighbours_witness :
  blockedDirsFromScan
    {| turn := 0; pos := pos testState; fuel := fuel testState;
       hull := hull testState; cargo := cargo testState; money := 0;
       localScan := ["..r.."; "....."]%string;
       atSurface := None; atFuelStation := None; atUpgradeShop := None;
       drill := None; goal := None; stations := None; rules := None |}
  = None.
Proof.
  apply (proj1 (blockedDirs_lists_solid_neighbours _)). simpl. lia.
Defined.

(** ** Tagged sections *)

Lemma toUpperCase_char_lt c :
  Ascii.eqb (toUpperCase_char "<") (toUpperCase_char c) = Ascii.eqb "<" c.
Proof.
  destruct c as [[] [] [] [] [] [] [] []]; reflexivity.
Qed.

Lemma append_assoc (a b c : string) : (a +:+ b) +:+ c = a +:+ (b +:+ c).
Proof. induction a as [|x a IH]; push_append; [reflexivity | now rewrite IH]. Qed.

Lemma stripPrefix_i_spelled p : forall p' rest,
  toUpperCase p' = toUpperCase p -> stripPrefix_i p (p' +:+ rest) = Some rest.
Proof.
  induction p as [|a p IH]; intros [|b p'] rest H; simpl in H; try discriminate.
  - reflexivity.
  - inversion H as [[Hc Hs]]. push_append. simpl.
    rewrite Hc, Ascii.eqb_refl. now apply IH.
Qed.

Lemma stripPrefix_i_Some p : forall s rest,
  stripPrefix_i p s = Some rest ->
  exists p', s = p' +:+ rest /\ toUpperCase p' = toUpperCase p.
Proof.
  induction p as [|a p IH]; intros s rest H; simpl in H.
  - inversion H; subst. exists EmptyString. split; reflexivity.
  - destruct s as [|b s]; [discriminate|].
    destruct (Ascii.eqb_spec (toUpperCase_char a) (toUpperCase_char b)) as [Hc|];
      [|discriminate].
    destruct (IH s rest H) as (p' & -> & Hp').
    exists (String b p'). split; [reflexivity|]. simpl. now rewrite Hc, Hp'.
Qed.

Lemma find_i_skip p pre s :
  noTagOpen pre ->
  find_i (String "<" p) (pre +:+ s)
  = match find_i (String "<" p) s with
    | Some (before, rest) => Some (pre +:+ before, rest)
    | None => None
    end.
Proof.
  unfold noTagOpen. induction pre as [|c pre IH]; intros Hall.
  - push_append. now destruct (find_i (String "<" p) s) as [[b r]|].
  - simpl in Hall. apply andb_true_iff in Hall as [Hc Hall].
    apply negb_true_iff in Hc. rewrite Ascii.eqb_sym in Hc.
    push_append. cbn [find_i stripPrefix_i].
    rewrite toUpperCase_char_lt, Hc, (IH Hall).
    now destruct (find_i (String "<" p) s) as [[b r]|].
Qed.

Lemma find_i_here p p' rest :
  toUpperCase p' = toUpperCase p ->
  find_i p (p' +:+ rest) = Some (EmptyString, rest).
Proof.
  intros H. destruct (p' +:+ rest) eqn:Hs; cbn [find_i];
    rewrite <- Hs, (stripPrefix_i_spelled p p' rest H); reflexivity.
Qed.

Lemma find_i_first p pre p' rest :
  noTagOpen pre -> toUpperCase p' = toUpperCase (String "<" p) ->
  find_i (String "<" p) (pre +:+ p' +:+ rest) = Some (pre, rest).
Proof.
  intros Hpre Hp. rewrite find_i_skip by assumption.
  rewrite (find_i_here _ _ _ Hp). now rewrite append_empty_r.
Qed.

Lemma find_i_Some p : forall s before rest,
  find_i p s = Some (before, rest) ->
  exists p', s = before +:+ p' +:+ rest /\ toUpperCase p' = toUpperCase p.
Proof.
  induction s as [|c s IH]; intros before rest H; cbn [find_i] in H.
  - destruct (stripPrefix_i p EmptyString) as [r|] eqn:Hp; [|discriminate].
    inversion H; subst. now apply stripPrefix_i_Some.
  - destruct (stripPrefix_i p (String c s)) as [r|] eqn:Hp.
    + inversion H; subst. now apply stripPrefix_i_Some.
    + destruct (find_i p s) as [[b r]|] eqn:Hf; [|discriminate].
      inversion H; subst. destruct (IH b rest eq_refl) as (p' & -> & Hp').
      exists p'. split; [reflexivity | assumption].
Qed.

Lemma find_i_None p : forall s,
  find_i p s = None ->
  forall before p' rest,
    s = before +:+ p' +:+ rest -> toUpperCase p' <> toUpperCase p.
Proof.
  induction s as [|c s IH]; intros H before p' rest Hs Hp; cbn [find_i] in H.
  - destruct before; [|discriminate]. rewrite append_Empty in Hs.
    rewrite Hs, (stripPrefix_i_spelled p p' rest Hp) in H. discriminate.
  - destruct (stripPrefix_i p (String c s)) as [r|] eqn:Hsp; [discriminate|].
    destruct before as [|b before].
    + rewrite append_Empty in Hs.
      rewrite Hs, (stripPrefix_i_spelled p p' rest Hp) in Hsp. discriminate.
    + rewrite append_String in Hs. inversion Hs; subst.
      destruct (find_i p (before +:+ p' +:+ rest)) as [[x y]|] eqn:Hf;
        [discriminate|].
      exact (IH eq_refl before p' rest eq_refl Hp).
Qed.

Lemma find_i_noTagOpen p s : noTagOpen s -> find_i (String "<" p) s = None.
Proof.
  intros Hs. rewrite <- (append_empty_r s). rewrite find_i_skip by assumption.
  reflexivity.
Qed.

Lemma extractTaggedText_section tag pre op body cl post :
  noTagOpen pre -> noTagOpen body ->
  spellsTag op ("<" +:+ tag +:+ ">") ->
  spellsTag cl ("</" +:+ tag +:+ ">") ->
  extractTaggedText (pre +:+ op +:+ body +:+ cl +:+ post) tag = Some (trim body).
Proof.
  intros Hpre Hbody Hop Hcl. unfold extractTaggedText.
  change ("<" +:+ tag +:+ ">") with (String "<" (tag +:+ ">")) in *.
  change ("</" +:+ tag +:+ ">") with (String "<" (String "/" (tag +:+ ">"))) in *.
  rewrite (find_i_first _ pre op _ Hpre Hop).
  now rewrite (find_i_first _ body cl _ Hbody Hcl).
Qed.

(** X21.  A section written as an opening tag, a body and a closing tag
    (the tags in any letter case) is extracted as its trimmed body, whatever
    follows it, provided no ["<"] occurs before the opening tag or inside
    the body. *)
Theorem extractTaggedText_returns_body (tag pre op body cl post : string) :
  noTagOpen pre -> noTagOpen body ->
  spellsTag op ("<" +:+ tag +:+ ">") ->
  spellsTag cl ("</" +:+ tag +:+ ">") ->
  extractTaggedText (pre +:+ op +:+ body +:+ cl +:+ post) tag = Some (trim body).
Proof. apply extractTaggedText_section. Qed.

Lemma extractTaggedText_returns_body_witness :
  extractTaggedText
    ("Plan: " +:+ "<Action_To_Take>" +:+ " dig down " +:+ "</ACTION_TO_TAKE>"
     +:+ "<execution>MOVE:D</execution>")
    "action_to_take"
  = Some (trim " dig down ").
Proof.
  apply (extractTaggedText_returns_body "action_to_take" "Plan: "
           "<Action_To_Take>" " dig down " "</ACTION_TO_TAKE>"
           "<execution>MOVE:D</execution>"); reflexivity.
Defined.

Lemma extractExecutionText_open pre op rest :
  noTagOpen pre -> spellsTag op "<execution>" ->
  find_i "<execution>" (pre +:+ op +:+ rest) = Some (pre, rest).
Proof. intros Hpre Hop. now apply (find_i_first "execution>"). Qed.

(** X22.  Of a text with no ["<"] before the opening [execution] tag:
    a complete section with a non-blank body free of ["<"] is extracted as
    its trimmed body; an unterminated section, with no ["<"] after the
    opening tag, is extracted as everything after that tag, trimmed; and a
    complete section with a blank body is not reported as missing either:
    it yields everything after the opening tag, closing tag included. *)
Theorem extractExecutionText_tolerates_truncation (pre op body cl post : string) :
  noTagOpen pre -> noTagOpen body ->
  spellsTag op "<execution>" -> spellsTag cl "</execution>" ->
  (isEmpty (trim body) = false ->
   extractExecutionText (pre +:+ op +:+ body +:+ cl +:+ post) = Some (trim body))
  /\ extractExecutionText (pre +:+ op +:+ body) = Some (trim body)
  /\ (isEmpty (trim body) = true ->
      extractExecutionText (pre +:+ op +:+ body +:+ cl +:+ post)
      = Some (trim (body +:+ cl +:+ post))).
Proof.
  intros Hpre Hbody Hop Hcl.
  pose proof (extractTaggedText_section "execution" pre op body cl post
                Hpre Hbody Hop Hcl) as Hfull.
  split; [|split].
  - intros Hne. unfold extractExecutionText. now rewrite Hfull, Hne.
  - unfold extractExecutionText, extractTaggedText.
    change ("<" +:+ "execution" +:+ ">") with "<execution>"%string.
    rewrite (extractExecutionText_open pre op body Hpre Hop).
    change ("</" +:+ "execution" +:+ ">")
      with (String "<" "/execution>").
    now rewrite (find_i_noTagOpen _ body Hbody).
  - intros He. unfold extractExecutionText. rewrite Hfull, He.
    now rewrite (extractExecutionText_open pre op _ Hpre Hop).
Qed.

Lemma extractExecutionText_tolerates_truncation_witness :
  extractExecutionText
    ("ok " +:+ "<EXECUTION>" +:+ " MOVE:D MOVE:L " +:+ "</execution>" +:+ " bye")
  = Some (trim " MOVE:D MOVE:L ").
Proof.
  apply (extractExecutionText_tolerates_truncation "ok " "<EXECUTION>"
           " MOVE:D MOVE:L " "</execution>" " bye"); reflexivity.
Defined.

(** X23.  The execution text is reported missing exactly when the opening
    [execution] tag, in whatever letter case, occurs nowhere in the text. *)
Theorem extractExecutionText_missing_iff_no_tag (text : string) :
  extractExecutionText text = None
  <-> ~ exists before op rest,
        text = before +:+ op +:+ rest /\ spellsTag op "<execution>".
Proof.
  unfold extractExecutionText, extractTaggedText.
  change ("<" +:+ "execution" +:+ ">") with "<execution>"%string.
  destruct (find_i "<execution>" text) as [[before rest]|] eqn:Hf.
  - split.
    + intros H. exfalso.
      destruct (find_i _ rest) as [[body after]|]; [|discriminate].
      destruct (isEmpty (trim body)); discriminate.
    + intros Hno. exfalso. apply Hno.
      destruct (find_i_Some _ _ _ _ Hf) as (op & -> & Hop).
      exists before, op, rest. split; [reflexivity | exact Hop].
  - split; [|reflexivity].
    intros _ (before & op & rest & -> & Hop).
    exact (find_i_None _ _ Hf before op rest eq_refl Hop).
Qed.

(** ** Padding and trimming *)

Lemma trimEnd_blank_nil ws : blank ws -> trimEnd ws = EmptyString.
Proof.
  intros H. rewrite <- (append_empty_r ws). now rewrite trimEnd_blank.
Qed.

Lemma trimEnd_trailing s : forall trail,
  blank trail -> trimEnd (s +:+ trail) = trimEnd s.
Proof.
  induction s as [|c s IH]; intros trail Ht.
  - rewrite append_Empty. now apply trimEnd_blank_nil.
  - rewrite append_String. simpl. now rewrite IH.
Qed.

Lemma trimStart_append s t :
  trimStart (s +:+ t)
  = if isEmpty (trimStart s) then trimStart t else trimStart s +:+ t.
Proof.
  induction s as [|c s IH]; push_append; simpl; [reflexivity|].
  destruct (isSpace c); [exact IH | reflexivity].
Qed.

Lemma trim_padding lead text trail :
  blank lead -> blank trail -> trim (lead +:+ text +:+ trail) = trim text.
Proof.
  intros Hl Ht. unfold trim. rewrite trimStart_blank by assumption.
  rewrite trimStart_append.
  destruct (trimStart text) eqn:Hs; cbn [isEmpty].
  - assert (Hb : trimStart trail = EmptyString).
    { rewrite <- (append_empty_r trail). rewrite trimStart_blank by assumption.
      reflexivity. }
    now rewrite Hb.
  - now apply trimEnd_trailing.
Qed.

Lemma trimEnd_idempotent s : trimEnd (trimEnd s) = trimEnd s.
Proof.
  induction s as [|c s IH]; [reflexivity|]. simpl.
  destruct (trimEnd s) as [|d r] eqn:Hr.
  - destruct (isSpace c) eqn:Hc; [reflexivity|]. simpl. now rewrite Hc.
  - change (trimEnd (String c (String d r)))
      with (match trimEnd (String d r) with
            | EmptyString => if isSpace c then EmptyString else String c EmptyString
            | String a s0 => String c (String a s0)
            end).
    now rewrite IH.
Qed.

Lemma trimStart_trimEnd s :
  (forall c r, s = String c r -> isSpace c = false) ->
  trimStart (trimEnd s) = trimEnd s.
Proof.
  intros Hhead. destruct s as [|c r]; [reflexivity|].
  rewrite trimEnd_nonspace_char by (now apply (Hhead c r)).
  simpl. now rewrite (Hhead c r eq_refl).
Qed.

Lemma trimStart_head s c r : trimStart s = String c r -> isSpace c = false.
Proof.
  induction s as [|a s IH]; simpl; [discriminate|].
  destruct (isSpace a) eqn:Ha; [exact IH|].
  intros H. inversion H; subst. exact Ha.
Qed.

Lemma trim_idempotent s : trim (trim s) = trim s.
Proof.
  unfold trim. rewrite trimStart_trimEnd.
  - apply trimEnd_idempotent.
  - intros c r. apply trimStart_head.
Qed.

Lemma tokenize_padding lead text trail :
  blank lead -> blank trail -> tokenize (lead +:+ text +:+ trail) = tokenize text.
Proof. intros Hl Ht. unfold tokenize. now rewrite trim_padding. Qed.

Lemma tokenize_trim text : tokenize (trim text) = tokenize text.
Proof. unfold tokenize. now rewrite trim_idempotent. Qed.

(** X24.  White space around an execution text changes nothing: padded on
    either side, or trimmed, the text validates to the same result with
    the same tokens and parses to the same actions. *)
Theorem execution_text_ignores_padding (lead text trail : string) (planLength : Z) :
  blank lead -> blank trail ->
  validateExecution (lead +:+ text +:+ trail) planLength
  = validateExecution text planLength
  /\ parseActionTokens (lead +:+ text +:+ trail) = parseActionTokens text
  /\ validateExecution (trim text) planLength = validateExecution text planLength
  /\ parseActionTokens (trim text) = parseActionTokens text.
Proof.
  intros Hl Ht. unfold validateExecution, parseActionTokens.
  rewrite tokenize_padding by assumption. rewrite tokenize_trim. auto.
Qed.

Lemma execution_text_ignores_padding_witness :
  parseActionTokens ("  " +:+ "MOVE:D  MOVE:L" +:+ " ")
  = parseActionTokens "MOVE:D  MOVE:L".
Proof.
  apply (execution_text_ignores_padding "  " "MOVE:D  MOVE:L" " " 3); reflexivity.
Defined.

(** ** A well-formed answer is accepted as it stands *)

Lemma isSpace_not_tagOpen c : isSpace c = true -> Ascii.eqb c "<" = false.
Proof. destruct c as [[] [] [] [] [] [] [] []]; try discriminate; reflexivity. Qed.

Lemma noTagOpen_append a b : noTagOpen a -> noTagOpen b -> noTagOpen (a +:+ b).
Proof.
  unfold noTagOpen. induction a as [|c a IH]; push_append; simpl; [auto|].
  intros Ha Hb. apply andb_true_iff in Ha as [Hc Ha]. rewrite Hc. now apply IH.
Qed.

Lemma blank_noTagOpen ws : blank ws -> noTagOpen ws.
Proof.
  unfold blank, noTagOpen. induction ws as [|c ws IH]; simpl; [auto|].
  intros H. apply andb_true_iff in H as [Hc H].
  rewrite (isSpace_not_tagOpen c Hc). now apply IH.
Qed.

Lemma toUpperCase_noTagOpen s : noTagOpen (toUpperCase s) -> noTagOpen s.
Proof.
  unfold noTagOpen. induction s as [|c s IH]; simpl; [auto|].
  intros H. apply andb_true_iff in H as [Hc H].
  rewrite Ascii.eqb_sym, <- toUpperCase_char_lt, Ascii.eqb_sym.
  change (toUpperCase_char "<") with "<"%char. rewrite Hc. now apply IH.
Qed.

Lemma spells_noTagOpen t tk : spells t tk -> noTagOpen t.
Proof.
  intros H. apply spells_upper in H. apply toUpperCase_noTagOpen.
  rewrite H. destruct tk as [|[]|[]]; reflexivity.
Qed.

Lemma render_noTagOpen pieces : forall lead tks,
  blank lead -> wellSeparated pieces -> Forall2 spells (map fst pieces) tks ->
  noTagOpen (render lead pieces).
Proof.
  induction pieces as [|[t ws] pieces IH]; intros lead tks Hlead Hsep Hsp; simpl.
  - now apply blank_noTagOpen.
  - destruct Hsep as (_ & Hws & _ & Hsep).
    inversion Hsp as [|? tk ? tks' Ht Hrest]; subst.
    apply noTagOpen_append; [now apply blank_noTagOpen|].
    apply noTagOpen_append; [now apply (spells_noTagOpen t tk)|].
    now apply (IH ws tks').
Qed.

Lemma Token_action_wellTyped tk : wellTyped (Token_action tk).
Proof.
  destruct tk as [|[]|[]]; simpl; repeat split; auto 6; discriminate.
Qed.

Lemma spellsTag_nonempty op tag : spellsTag op tag -> tag <> EmptyString -> op <> EmptyString.
Proof.
  unfold spellsTag. intros H Ht ->. destruct tag; [congruence | discriminate].
Qed.

Lemma isEmpty_append_r a b : b <> EmptyString -> isEmpty (a +:+ b) = false.
Proof.
  intros Hb. destruct a; push_append; [|reflexivity].
  destruct b; [congruence | reflexivity].
Qed.

(** X25.  With a key configured and the budget not used up, a model answer
    holding one complete [execution] section (no ["<"] before it) whose body
    is 1 to [planLength] words, each spelling a token, is accepted at the
    first attempt: the note is [openrouter], one request was issued, and
    the plan is the actions the words spell, in order, cut to the first
    [clamp planLength 1 10]. *)
Theorem well_formed_answer_is_accepted (cfg : Config) (w : World) (state : State)
  (planLength : Z) (sessionId : option string)
  (fuelNavigator : option FuelNavigatorPayload)
  (pre op lead cl post : string) (pieces : list (string * string))
  (tks : list Token) (reasoningText details : option string) (second : ApiResult) :
  OPENROUTER_API_KEY cfg <> EmptyString ->
  ~ (0 < MAX_PLANS_PER_SESSION cfg /\ MAX_PLANS_PER_SESSION cfg <= planCount w) ->
  noTagOpen pre ->
  spellsTag op "<execution>" -> spellsTag cl "</execution>" ->
  blank lead -> wellSeparated pieces ->
  Forall2 spells (map fst pieces) tks ->
  1 <= Z.of_nat (length pieces) <= planLength ->
  let content := pre +:+ op +:+ render lead pieces +:+ cl +:+ post in
  let o := callOpenRouterPlan cfg w state planLength sessionId fuelNavigator
             (ApiOk (Some content) reasoningText details) second in
  note (response o) = "openrouter"%string
  /\ status (response o) = None
  /\ actions (response o)
     = take (Z.to_nat (clamp planLength 1 10)) (map Token_action tks)
  /\ length (requests o) = 1%nat
  /\ planCount (world o) = planCount w + 1.
Proof.
  intros Hkey Hbudget Hpre Hop Hcl Hlead Hsep Hspell Hlen content o.
  assert (Hpieces : pieces <> []) by (intros ->; simpl in Hlen; lia).
  assert (Hbody : noTagOpen (render lead pieces))
    by (now apply (render_noTagOpen pieces lead tks)).
  assert (Hcontent : isEmpty content = false).
  { subst content. apply isEmpty_append_r. intros H.
    destruct op; [|discriminate].
    apply (spellsTag_nonempty EmptyString "<execution>" Hop); [discriminate|reflexivity]. }
  assert (Hcombined : combineText content reasoningText = content).
  { unfold combineText, str_or. now rewrite Hcontent. }
  assert (Hcore : isEmpty (trim (render lead pieces)) = false).
  { rewrite trim_render by assumption.
    destruct pieces as [|p pieces]; [congruence|].
    destruct (isEmpty (core (p :: pieces))) eqn:He; [|reflexivity].
    apply core_nonempty in He. exfalso. apply He. destruct p. apply Hsep. }
  assert (Hext : extractExecutionText content = Some (trim (render lead pieces))).
  { subst content. unfold extractExecutionText.
    rewrite (extractTaggedText_section "execution" pre op _ cl post
               Hpre Hbody Hop Hcl).
    now rewrite Hcore. }
  assert (Htok : tokenize (trim (render lead pieces)) = map fst pieces).
  { rewrite tokenize_trim. now apply tokenize_render. }
  assert (Hok : success (validateExecution (trim (render lead pieces)) planLength)
                = true).
  { apply validateExecution_success. rewrite Htok, length_map. eauto. }
  assert (Hparse : parseActionTokens (trim (render lead pieces))
                   = map Token_action tks).
  { unfold parseActionTokens. rewrite Htok.
    apply (parseActionTokens_loop_spelled _ tks), spelled_words; auto.
    now apply wellSeparated_words. }
  assert (Hk : length (map Token_action tks) = length pieces).
  { rewrite length_map. apply Forall2_length in Hspell.
    now rewrite <- Hspell, length_map. }
  pose proof (getSession_planCount w sessionId) as Hcount.
  subst o. unfold callOpenRouterPlan.
  destruct (OPENROUTER_API_KEY cfg); [congruence|]. cbn [isEmpty].
  destruct ((0 <? MAX_PLANS_PER_SESSION cfg)
            && (MAX_PLANS_PER_SESSION cfg <=? planCount w)) eqn:Hb.
  { exfalso. apply Hbudget. lia. }
  destruct (getSession w sessionId) as [session w']. simpl in Hcount.
  change (default EmptyString (Some content)) with content.
  rewrite Hcombined, Hext, Hcore, Hok. cbn [negb]. rewrite Hparse, Hk.
  replace ((Z.of_nat (length pieces) <? 1) || (planLength <? Z.of_nat (length pieces)))
    with false by (symmetry; apply orb_false_iff; split; lia).
  cbn [response world requests note status actions planCount length].
  split; [reflexivity|]. split; [reflexivity|].
  split; [|split; [reflexivity | unfold storeSession; cbn [planCount]; lia]].
  apply sanitizeActions_wellTyped_take.
  - destruct tks; [|discriminate]. simpl in Hk. destruct pieces; [congruence|].
    discriminate.
  - apply Forall_map, Forall_forall. intros tk _. apply Token_action_wellTyped.
Qed.

Lemma well_formed_answer_is_accepted_witness :
  actions (response
             (callOpenRouterPlan keyConfig initialWorld testState 3 None None
                (ApiOk (Some ("Going down. " +:+ "<execution>"
                              +:+ render " " [("move:d", " "); ("MOVE:L", "")]%string
                              +:+ "</execution>" +:+ ""))
                       None None)
                correctedAnswer))
  = take (Z.to_nat (clamp 3 1 10)) (map Token_action [TMove D; TMove L]).
Proof.
  apply (well_formed_answer_is_accepted keyConfig initialWorld testState 3 None None
           "Going down. " "<execution>" " " "</execution>" ""
           [("move:d", " "); ("MOVE:L", "")]%string [TMove D; TMove L]
           None None correctedAnswer).
  - discriminate.
  - simpl. lia.
  - reflexivity.
  - reflexivity.
  - reflexivity.
  - reflexivity.
  - simpl. unfold word, blank.
    repeat split; try discriminate; intros H; now elim H.
  - repeat constructor.
  - simpl. lia.
Defined.

(** ** The correction round *)

Lemma well_formed_content planLength pre op lead cl post pieces tks :
  noTagOpen pre ->
  spellsTag op "<execution>" -> spellsTag cl "</execution>" ->
  blank lead -> wellSeparated pieces ->
  Forall2 spells (map fst pieces) tks ->
  1 <= Z.of_nat (length pieces) <= planLength ->
  let content := pre +:+ op +:+ render lead pieces +:+ cl +:+ post in
  let executionText := trim (render lead pieces) in
  isEmpty content = false
  /\ extractExecutionText content = Some executionText
  /\ isEmpty executionText = false
  /\ success (validateExecution executionText planLength) = true
  /\ parseActionTokens executionText = map Token_action tks
  /\ length (map Token_action tks) = length pieces
  /\ sanitizeActions (map Token_action tks) planLength
     = take (Z.to_nat (clamp planLength 1 10)) (map Token_action tks).
Proof.
  intros Hpre Hop Hcl Hlead Hsep Hspell Hlen content executionText.
  subst content executionText.
  assert (Hpieces : pieces <> []) by (intros ->; simpl in Hlen; lia).
  assert (Hbody : noTagOpen (render lead pieces))
    by (now apply (render_noTagOpen pieces lead tks)).
  assert (Hcore : isEmpty (trim (render lead pieces)) = false).
  { rewrite trim_render by assumption.
    destruct pieces as [|p pieces]; [congruence|].
    destruct (isEmpty (core (p :: pieces))) eqn:He; [|reflexivity].
    apply core_nonempty in He. exfalso. apply He. destruct p. apply Hsep. }
  assert (Htok : tokenize (trim (render lead pieces)) = map fst pieces).
  { rewrite tokenize_trim. now apply tokenize_render. }
  assert (Hk : length (map Token_action tks) = length pieces).
  { rewrite length_map. apply Forall2_length in Hspell.
    now rewrite <- Hspell, length_map. }
  split.
  { apply isEmpty_append_r. intros H. destruct op; [|discriminate].
    apply (spellsTag_nonempty EmptyString "<execution>" Hop);
      [discriminate | reflexivity]. }
  split.
  { unfold extractExecutionText.
    rewrite (extractTaggedText_section "execution" pre op _ cl post
               Hpre Hbody Hop Hcl).
    now rewrite Hcore. }
  split; [exact Hcore|]. split.
  { apply validateExecution_success. rewrite Htok, length_map. eauto. }
  split.
  { unfold parseActionTokens. rewrite Htok.
    apply (parseActionTokens_loop_spelled _ tks), spelled_words; auto.
    now apply wellSeparated_words. }
  split; [exact Hk|].
  apply sanitizeActions_wellTyped_take.
  - destruct tks; [|discriminate]. simpl in Hk. destruct pieces; [congruence|].
    discriminate.
  - apply Forall_map, Forall_forall. intros tk _. apply Token_action_wellTyped.
Qed.

Lemma requestCorrection_accepts cfg planLength pre op lead cl post pieces tks
  reasoningText details :
  noTagOpen pre ->
  spellsTag op "<execution>" -> spellsTag cl "</execution>" ->
  blank lead -> wellSeparated pieces ->
  Forall2 spells (map fst pieces) tks ->
  1 <= Z.of_nat (length pieces) <= planLength ->
  let content := pre +:+ op +:+ render lead pieces +:+ cl +:+ post in
  requestCorrection cfg planLength (ApiOk (Some content) reasoningText details)
  = Some {| actions := take (Z.to_nat (clamp planLength 1 10)) (map Token_action tks);
            note := "openrouter-corrected";
            model := Some (OPENROUTER_MODEL cfg);
            reasoning := Some content;
            status := None |}.
Proof.
  intros Hpre Hop Hcl Hlead Hsep Hspell Hlen content.
  destruct (well_formed_content planLength pre op lead cl post pieces tks
              Hpre Hop Hcl Hlead Hsep Hspell Hlen)
    as (Hcontent & Hext & Hcore & Hok & Hparse & Hk & Hsan).
  fold content in Hcontent, Hext.
  unfold requestCorrection.
  change (default EmptyString (Some content)) with content.
  assert (Hcombined : combineText content reasoningText = content).
  { unfold combineText, str_or. now rewrite Hcontent. }
  rewrite Hcombined, Hext, Hcore, Hok. cbn [negb]. rewrite Hparse, Hk.
  replace ((Z.of_nat (length pieces) <? 1) || (planLength <? Z.of_nat (length pieces)))
    with false by (symmetry; apply orb_false_iff; split; lia).
  rewrite Hsan. unfold str_or_null. now rewrite Hcontent.
Qed.

Lemma correction_round cfg w state planLength sessionId fuelNavigator
  content reasoningText details second :
  OPENROUTER_API_KEY cfg <> EmptyString ->
  ~ (0 < MAX_PLANS_PER_SESSION cfg /\ MAX_PLANS_PER_SESSION cfg <= planCount w) ->
  let combinedText := combineText (default EmptyString content) reasoningText in
  needsCorrection planLength combinedText = true ->
  let o := callOpenRouterPlan cfg w state planLength sessionId fuelNavigator
             (ApiOk content reasoningText details) second in
  response o
  = match requestCorrection cfg planLength second with
    | Some correctionResponse => correctionResponse
    | None =>
        fallbackResponse cfg state planLength (rejectionNote planLength combinedText)
          (str_or_null combinedText) (Some "bad_format"%string)
    end
  /\ planCount (world o) = planCount w
  /\ length (requests o) = 2%nat.
Proof.
  intros Hkey Hbudget combinedText Hneeds o. subst o.
  pose proof (getSession_planCount w sessionId) as Hcount.
  unfold callOpenRouterPlan.
  destruct (OPENROUTER_API_KEY cfg); [congruence|]. cbn [isEmpty].
  destruct ((0 <? MAX_PLANS_PER_SESSION cfg)
            && (MAX_PLANS_PER_SESSION cfg <=? planCount w)) eqn:Hb.
  { exfalso. apply Hbudget. lia. }
  destruct (getSession w sessionId) as [session w']. simpl in Hcount.
  fold combinedText. unfold needsCorrection, rejectionNote in *.
  destruct (extractExecutionText combinedText) as [executionText|];
    [|cbn [response world requests]; auto].
  destruct (isEmpty executionText); [cbn [response world requests]; auto|].
  cbn [orb] in Hneeds. rewrite Hneeds. cbn [response world requests]. auto.
Qed.

(** X26.  When the first answer has no valid execution text and the
    correction answer holds one complete [execution] section of 1 to
    [planLength] words, each spelling a token, the plan is the actions those
    words spell (cut to [clamp planLength 1 10]) under the note
    [openrouter-corrected]; two requests were issued and the plan counter
    did not move. *)
Theorem well_formed_correction_is_accepted (cfg : Config) (w : World) (state : State)
  (planLength : Z) (sessionId : option string)
  (fuelNavigator : option FuelNavigatorPayload)
  (content reasoningText details : option string)
  (pre op lead cl post : string) (pieces : list (string * string))
  (tks : list Token) (reasoningText2 details2 : option string) :
  OPENROUTER_API_KEY cfg <> EmptyString ->
  ~ (0 < MAX_PLANS_PER_SESSION cfg /\ MAX_PLANS_PER_SESSION cfg <= planCount w) ->
  needsCorrection planLength
    (combineText (default EmptyString content) reasoningText) = true ->
  noTagOpen pre ->
  spellsTag op "<execution>" -> spellsTag cl "</execution>" ->
  blank lead -> wellSeparated pieces ->
  Forall2 spells (map fst pieces) tks ->
  1 <= Z.of_nat (length pieces) <= planLength ->
  let corrected := pre +:+ op +:+ render lead pieces +:+ cl +:+ post in
  let o := callOpenRouterPlan cfg w state planLength sessionId fuelNavigator
             (ApiOk content reasoningText details)
             (ApiOk (Some corrected) reasoningText2 details2) in
  note (response o) = "openrouter-corrected"%string
  /\ actions (response o)
     = take (Z.to_nat (clamp planLength 1 10)) (map Token_action tks)
  /\ length (requests o) = 2%nat
  /\ planCount (world o) = planCount w.
Proof.
  intros Hkey Hbudget Hneeds Hpre Hop Hcl Hlead Hsep Hspell Hlen corrected o.
  destruct (correction_round cfg w state planLength sessionId fuelNavigator
              content reasoningText details
              (ApiOk (Some corrected) reasoningText2 details2)
              Hkey Hbudget Hneeds) as (Hresp & Hcount & Hreq).
  fold o in Hresp, Hcount, Hreq. subst corrected.
  rewrite (requestCorrection_accepts cfg planLength pre op lead cl post pieces tks
             reasoningText2 details2 Hpre Hop Hcl Hlead Hsep Hspell Hlen) in Hresp.
  rewrite Hresp. auto.
Qed.

Lemma well_formed_correction_is_accepted_witness :
  note (response
          (callOpenRouterPlan keyConfig initialWorld testState 3 None None
             (ApiOk (Some "I will dig."%string) None None)
             (ApiOk (Some ("" +:+ "<execution>" +:+ render "" [("MOVE:D", "")]%string
                           +:+ "</execution>" +:+ ""))
                    None None)))
  = "openrouter-corrected"%string.
Proof.
  apply (well_formed_correction_is_accepted keyConfig initialWorld testState 3
           None None (Some "I will dig."%string) None None
           "" "<execution>" "" "</execution>" "" [("MOVE:D", "")]%string [TMove D]
           None None).
  - discriminate.
  - simpl. lia.
  - reflexivity.
  - reflexivity.
  - reflexivity.
  - reflexivity.
  - reflexivity.
  - simpl. unfold word, blank.
    repeat split; try discriminate; intros H; now elim H.
  - repeat constructor.
  - simpl. lia.
Defined.

(** X27.  When the first answer has no valid execution text and the
    correction round gives nothing (its call fails, or its answer is again
    without valid execution text), the answer is the fallback plan with
    status [bad_format], noted [no-execution-tag] when the first answer had
    no execution text and [bad-execution-format] when it had an invalid one;
    a failed correction call is such a case. *)
Theorem failed_correction_falls_back (cfg : Config) (w : World) (state : State)
  (planLength : Z) (sessionId : option string)
  (fuelNavigator : option FuelNavigatorPayload)
  (content reasoningText details : option string) (second : ApiResult) :
  OPENROUTER_API_KEY cfg <> EmptyString ->
  ~ (0 < MAX_PLANS_PER_SESSION cfg /\ MAX_PLANS_PER_SESSION cfg <= planCount w) ->
  let combinedText := combineText (default EmptyString content) reasoningText in
  needsCorrection planLength combinedText = true ->
  requestCorrection cfg planLength second = None ->
  let o := callOpenRouterPlan cfg w state planLength sessionId fuelNavigator
             (ApiOk content reasoningText details) second in
  note (response o) = rejectionNote planLength combinedText
  /\ status (response o) = Some "bad_format"%string
  /\ actions (response o) = planActions state planLength
  /\ length (requests o) = 2%nat
  /\ planCount (world o) = planCount w
  /\ forall err, requestCorrection cfg planLength (ApiError err) = None.
Proof.
  intros Hkey Hbudget combinedText Hneeds Hnone o.
  destruct (correction_round cfg w state planLength sessionId fuelNavigator
              content reasoningText details second Hkey Hbudget Hneeds)
    as (Hresp & Hcount & Hreq).
  fold o combinedText in Hresp, Hcount, Hreq.
  rewrite Hnone in Hresp. rewrite Hresp. simpl. auto 10.
Qed.

Lemma failed_correction_falls_back_witness :
  note (response
          (callOpenRouterPlan keyConfig initialWorld testState 3 None None
             invalidAnswer (ApiError (RequestFailed "502"))))
  = "bad-execution-format"%string.
Proof.
  apply (failed_correction_falls_back keyConfig initialWorld testState 3 None None
           (Some "<execution>MOVE:Z</execution>"%string) None None
           (ApiError (RequestFailed "502"))).
  - discriminate.
  - simpl. lia.
  - reflexivity.
  - reflexivity.
Defined.

(** ** Memory is kept whatever the model does *)

Lemma appendHistory_keeps_memory session r c :
  known (appendHistory session r c) = known session
  /\ bounds (appendHistory session r c) = bounds session
  /\ visited (appendHistory session r c) = visited session
  /\ fuelRuns (appendHistory session r c) = fuelRuns session
  /\ lastAtStation (appendHistory session r c) = lastAtStation session.
Proof. unfold appendHistory. simpl. auto. Qed.

(** X28.  Past the two guards (key configured, budget not used up), the
    session registered after the request carries the memory update and the
    fuel-run update of that request whatever the model calls gave, an API
    error included: known tiles, box, trail and fuel-run counter are those
    of the working session. *)
Theorem memory_survives_every_answer (cfg : Config) (w : World) (state : State)
  (planLength : Z) (sessionId : option string)
  (fuelNavigator : option FuelNavigatorPayload) (first second : ApiResult) :
  OPENROUTER_API_KEY cfg <> EmptyString ->
  ~ (0 < MAX_PLANS_PER_SESSION cfg /\ MAX_PLANS_PER_SESSION cfg <= planCount w) ->
  exists stored,
    sessions (world (callOpenRouterPlan cfg w state planLength sessionId
                       fuelNavigator first second)) !! sessionKey sessionId
    = Some stored
    /\ known stored = known (workingSession w state sessionId)
    /\ bounds stored = bounds (workingSession w state sessionId)
    /\ visited stored = visited (workingSession w state sessionId)
    /\ fuelRuns stored = fuelRuns (workingSession w state sessionId)
    /\ lastAtStation stored = lastAtStation (workingSession w state sessionId).
Proof.
  intros Hk Hbud. unfold workingSession.
  assert (Hstore : forall w' session r1 c1 r2 c2,
             exists stored,
               sessions (storeSession w' (sessionKey sessionId)
                           (appendHistory (appendHistory session r1 c1) r2 c2))
                 !! sessionKey sessionId = Some stored
               /\ known stored = known session
               /\ bounds stored = bounds session
               /\ visited stored = visited session
               /\ fuelRuns stored = fuelRuns session
               /\ lastAtStation stored = lastAtStation session).
  { intros w' session r1 c1 r2 c2. eexists. split; [apply lookup_insert_eq|].
    unfold appendHistory. simpl. auto. }
  call_branches;
    try (destruct (OPENROUTER_API_KEY cfg); [congruence | discriminate]);
    try (exfalso; apply Hbud; lia);
    cbn [fst sessions]; apply Hstore.
Qed.

Lemma memory_survives_every_answer_witness :
  exists stored,
    sessions (world (callOpenRouterPlan keyConfig initialWorld testState 3 None None
                       (ApiError (AbortedByTimeout "Request was aborted."))
                       correctedAnswer)) !! sessionKey None
    = Some stored
    /\ known stored = known (workingSession initialWorld testState None)
    /\ bounds stored = bounds (workingSession initialWorld testState None)
    /\ visited stored = visited (workingSession initialWorld testState None)
    /\ fuelRuns stored = fuelRuns (workingSession initialWorld testState None)
    /\ lastAtStation stored
       = lastAtStation (workingSession initialWorld testState None).
Proof.
  apply memory_survives_every_answer; [discriminate | simpl; lia].
Defined.

(** ** The visited trail *)

Lemma tail_skipn {A} (l : list A) : forall k, tail (skipn k l) = skipn (S k) l.
Proof.
  induction l as [|x l IH]; intros [|k]; simpl; auto.
Qed.

Lemma pushVisit_lastN l v : pushVisit (lastN 50 l) v = lastN 50 (l ++ [v]).
Proof.
  unfold pushVisit, lastN.
  rewrite !length_app, length_skipn. cbn [length].
  destruct (Nat.le_gt_cases 50 (length l)) as [Hlong|Hshort].
  - replace (50 <? length l - (length l - 50) + 1)%nat with true
      by (symmetry; apply Nat.ltb_lt; lia).
    replace (length l + 1 - 50)%nat with (S (length l - 50)) by lia.
    rewrite (skipn_app (S (length l - 50))).
    replace (S (length l - 50) - length l)%nat with 0%nat by lia.
    rewrite <- tail_skipn. simpl skipn.
    destruct (skipn (length l - 50) l) eqn:Hs; [|reflexivity].
    exfalso. apply (f_equal (@length _)) in Hs. rewrite length_skipn in Hs.
    simpl in Hs. lia.
  - replace (50 <? length l - (length l - 50) + 1)%nat with false
      by (symmetry; apply Nat.ltb_ge; lia).
    replace (length l - 50)%nat with 0%nat by lia.
    replace (length l + 1 - 50)%nat with 0%nat by lia. reflexivity.
Qed.

Lemma fold_updateMemory_visited states : forall session l,
  visited session = lastN 50 l ->
  visited (fold_left updateMemory states session)
  = lastN 50 (l ++ map visitOf states).
Proof.
  induction states as [|state states IH]; intros session l Hl; simpl.
  - now rewrite app_nil_r.
  - rewrite (IH (updateMemory session state) (l ++ [visitOf state])).
    + now rewrite <- app_assoc.
    + unfold updateMemory. simpl. rewrite Hl. apply pushVisit_lastN.
Qed.

(** X29.  After any sequence of memory updates applied to a fresh session,
    the visited trail is the positions and turns of the last 50 of those
    updates, oldest first. *)
Theorem visited_is_last_fifty (id : string) (states : list State) :
  visited (fold_left updateMemory states (newSession id))
  = lastN 50 (map visitOf states).
Proof.
  apply (fold_updateMemory_visited states (newSession id) []). reflexivity.
Qed.

(** ** The known tiles sent to the model *)

Lemma tile_leb_total a b : tile_leb a b = false -> tile_leb b a = true.
Proof. unfold tile_leb. lia. Qed.

Lemma tile_leb_trans a b c :
  tile_leb a b = true -> tile_leb b c = true -> tile_leb a c = true.
Proof. unfold tile_leb. lia. Qed.

Lemma insertTile_In a l x : List.In x (insertTile a l) <-> x = a \/ List.In x l.
Proof.
  induction l as [|b l IH]; simpl; [intuition|].
  destruct (tile_leb a b); simpl; [intuition|]. rewrite IH. intuition.
Qed.

Lemma insertTile_length a l : length (insertTile a l) = S (length l).
Proof.
  induction l as [|b l IH]; simpl; [reflexivity|].
  destruct (tile_leb a b); simpl; [reflexivity | now rewrite IH].
Qed.

Lemma insertTile_sorted a l : tilesSorted l -> tilesSorted (insertTile a l).
Proof.
  induction l as [|b l IH]; simpl; [auto|].
  intros [Hb Hl]. destruct (tile_leb a b) eqn:Hab; simpl.
  - split; [|auto]. constructor; [assumption|].
    eapply Forall_impl; [exact Hb|]. intros c Hc. now apply (tile_leb_trans a b c).
  - split; [|now apply IH]. apply Forall_forall. intros x Hx.
    apply list_elem_of_In, insertTile_In in Hx as [->|Hx].
    + now apply tile_leb_total.
    + rewrite Forall_forall in Hb. apply Hb. now apply list_elem_of_In.
Qed.

Lemma sortTiles_spec l :
  tilesSorted (sortTiles l)
  /\ length (sortTiles l) = length l
  /\ forall x, List.In x (sortTiles l) <-> List.In x l.
Proof.
  induction l as [|a l (Hs & Hlen & Hin)]; simpl; [intuition|].
  split; [now apply insertTile_sorted|]. split.
  - now rewrite insertTile_length, Hlen.
  - intros x. rewrite insertTile_In, Hin. intuition.
Qed.

Lemma tilesSorted_split l : forall n x y,
  tilesSorted l -> List.In x (take n l) -> List.In y (drop n l) ->
  tile_leb x y = true.
Proof.
  induction l as [|a l IH]; intros [|n] x y Hs Hx Hy; simpl in *; try contradiction.
  destruct Hs as [Ha Hl]. destruct Hx as [<-|Hx].
  - rewrite Forall_forall in Ha. apply Ha, list_elem_of_In.
    rewrite <- (take_drop n l). apply in_app_iff. now right.
  - now apply (IH n).
Qed.

Lemma knownTiles_marked session tl :
  List.In tl
    (omap (fun kt : (Z * Z) * ascii =>
             if Ascii.eqb (snd kt) dot || Ascii.eqb (snd kt) "?"%char then None
             else Some {| tile_x := fst (fst kt); tile_y := snd (fst kt);
                          tile_t := snd kt |})
          (map_to_list (known session)))
  <-> marked session tl.
Proof.
  rewrite <- list_elem_of_In, list_elem_of_omap. unfold marked. split.
  - intros ([[gx gy] t] & Hin & Hf). apply elem_of_map_to_list in Hin.
    simpl in Hf.
    destruct (Ascii.eqb_spec t dot) as [|Hd]; [discriminate|].
    destruct (Ascii.eqb_spec t "?"%char) as [|Hq]; [discriminate|].
    inversion Hf; subst. simpl. auto.
  - intros (Hk & Hd & Hq). exists ((tile_x tl, tile_y tl), tile_t tl). split.
    + now apply elem_of_map_to_list.
    + simpl. apply Ascii.eqb_neq in Hd, Hq. rewrite Hd, Hq. now destruct tl.
Qed.

(** X30.  The known tiles of the payload are never more than the limit,
    and each of them is a tile the session knows that is neither ["."] nor
    ["?"].  Every such tile is listed, unless the limit cut it off; in
    that case the list is full, runs in (y, x) order, and every listed
    tile comes before the omitted one in that order. *)
Theorem buildKnownTiles_lists_marked (session : SessionMemory) (limit : nat) :
  let tiles := buildKnownTiles session limit in
  (length tiles <= limit)%nat
  /\ (forall tl, List.In tl tiles -> marked session tl)
  /\ (forall tl, marked session tl ->
        List.In tl tiles
        \/ (length tiles = limit
            /\ tilesSorted tiles
            /\ forall listed, List.In listed tiles -> tile_leb listed tl = true)).
Proof.
  unfold buildKnownTiles.
  set (all := omap _ (map_to_list (known session))).
  pose proof (knownTiles_marked session) as Hmarked. fold all in Hmarked.
  destruct (sortTiles_spec all) as (Hsorted & Hlen & Hin).
  destruct (Nat.ltb_spec limit (length all)) as [Hover|Hfit]; cbv zeta.
  - split; [rewrite length_take; lia|]. split.
    + intros tl Htl. apply Hmarked, Hin.
      rewrite <- (take_drop limit (sortTiles all)). apply in_app_iff. now left.
    + intros tl Htl. apply Hmarked, Hin in Htl.
      rewrite <- (take_drop limit (sortTiles all)) in Htl.
      apply in_app_iff in Htl as [Htl|Htl]; [now left|]. right.
      split; [rewrite length_take; lia|]. split.
      * clear -Hsorted. revert limit.
        induction (sortTiles all) as [|a l IH]; intros [|n]; simpl; auto.
        destruct Hsorted as [Ha Hl]. split; [now apply Forall_take | now apply IH].
      * intros listed Hlisted.
        now apply (tilesSorted_split (sortTiles all) limit).
  - split; [assumption|]. split.
    + intros tl Htl. now apply Hmarked.
    + intros tl Htl. left. now apply Hmarked.
Qed.
